(** * denat: a UDP rendezvous client (client.py)

    A shallow embedding of [client.py] and the properties of its address
    codec, its socket set-up, its discovery handshake and its keepalive loop.

    Conventions of the embedding.
    - Python [bytes] are Rocq strings, one character per byte.  Python [str]
      values are held as their UTF-8 encoding, so [encode('utf-8')] is the
      identity and [decode('utf-8')] is a well-formedness check.  Splitting on
      [":"] and [";"] commutes with that encoding.  The model of [int] reads
      ASCII digits and ASCII white space only; the decimal digits and spaces
      outside ASCII that Python's [int] also reads are not modelled.
    - Python integers are [Z].
    - The network and the operating system are a script: the answers to the
      successive [bind] calls and to the successive [select]/[recvfrom] calls.
      A run that asks for an answer after the script has ended is [Pending]:
      it is still waiting, it has neither returned nor raised.  The script
      of the inbox is shared by all sockets: it lists what the successive
      waits of the client end with, on whichever socket they are made.
      [sendto] hands the datagram over and always returns.
    - Console output ([print], [same_line_print], the printing methods of
      [Stats]) and the clock are not modelled. *)

From Stdlib Require Import ZArith List String Ascii Bool Lia.
Import ListNotations.
Local Open Scope string_scope.
Local Open Scope Z_scope.

(** ** Exceptions and results *)

(** The exceptions the client can meet.  [UnicodeDecodeError] is a subclass
    of [ValueError] in Python; [Other] stands for whatever else the
    environment raises (a [KeyboardInterrupt], an [OverflowError] of
    [bind], ...). *)
Inductive exn : Type :=
| ValueError
| UnicodeDecodeError
| OSError (errno : Z)
| RuntimeError (msg : string)
| Other (name : string).

Inductive result (A : Type) : Type :=
| Ok (a : A)
| Err (e : exn).
Arguments Ok {A} a.
Arguments Err {A} e.

Definition rbind {A B : Type} (r : result A) (k : A -> result B) : result B :=
  match r with
  | Ok a => k a
  | Err e => Err e
  end.

(** ** Builtins of Python used by the codec *)

Definition bytes := string.
Definition str := string.

Definition code (c : ascii) : Z := Z.of_N (N_of_ascii c).

(** [s.split(sep)] for a one-character separator: every occurrence cuts. *)
Fixpoint split (sep : ascii) (s : str) : list str :=
  match s with
  | EmptyString => [EmptyString]
  | String c s' =>
      if Ascii.eqb c sep then EmptyString :: split sep s'
      else match split sep s' with
           | [] => [String c EmptyString]
           | p :: ps => String c p :: ps
           end
  end.

(** [a, b = l]: unpacking into exactly two targets. *)
Definition unpack2 {A : Type} (l : list A) : result (A * A) :=
  match l with
  | [a; b] => Ok (a, b)
  | _ => Err ValueError
  end.

(** White space skipped by [int]: tab, line feed, vertical tab, form feed,
    carriage return and space. *)
Definition is_space (c : ascii) : bool :=
  let n := code c in ((9 <=? n) && (n <=? 13)) || (n =? 32).

Definition digit_val (c : ascii) : option Z :=
  let n := code c in
  if (48 <=? n) && (n <=? 57) then Some (n - 48) else None.

Fixpoint lstrip (s : str) : str :=
  match s with
  | EmptyString => EmptyString
  | String c s' => if is_space c then lstrip s' else s
  end.

(** The digit scan of [int]: digits, with single underscores between them.
    [prev_us] tells that the previous character was an underscore, [acc] is
    the value read so far and [n] the number of digits read.  The scan stops
    at the first character that is neither a digit nor an underscore and
    returns the value, the number of digits and the text left. *)
Fixpoint scan_digits (prev_us : bool) (acc : Z) (n : Z) (s : str)
  : option (Z * Z * str) :=
  match s with
  | EmptyString => if prev_us then None else Some (acc, n, EmptyString)
  | String c s' =>
      match digit_val c with
      | Some d => scan_digits false (acc * 10 + d) (n + 1) s'
      | None =>
          if Ascii.eqb c "_" then
            if prev_us then None else scan_digits true acc n s'
          else if prev_us then None else Some (acc, n, s)
      end
  end.

(** The default of [sys.get_int_max_str_digits()]. *)
Definition int_max_str_digits : Z := 4300.

Definition starts_with (c : ascii) (s : str) : bool :=
  match s with
  | String c' _ => Ascii.eqb c' c
  | EmptyString => false
  end.

(** The unsigned part of [int]: no leading underscore, at least one digit,
    no more digits than the limit, then only white space. *)
Definition int_unsigned (s : str) : option Z :=
  if starts_with "_" s then None
  else match scan_digits false 0 0 s with
       | Some (v, n, rest) =>
           if (n =? 0) || (int_max_str_digits <? n) then None
           else match lstrip rest with
                | EmptyString => Some v
                | _ => None
                end
       | None => None
       end.

(** [int(s)] in base ten; [None] is [ValueError]. *)
Definition int_of_str (s : str) : option Z :=
  match lstrip s with
  | String c s' =>
      if Ascii.eqb c "-" then option_map Z.opp (int_unsigned s')
      else if Ascii.eqb c "+" then int_unsigned s'
      else int_unsigned (String c s')
  | EmptyString => None
  end.

Definition digit_char (d : Z) : ascii := ascii_of_N (Z.to_N (48 + d)).

(** Decimal digits of a non-negative integer, most significant first,
    written in front of [acc]. *)
Fixpoint digits_of (fuel : nat) (n : Z) (acc : str) : str :=
  match fuel with
  | O => acc
  | S f =>
      let acc' := String (digit_char (n mod 10)) acc in
      if n <? 10 then acc' else digits_of f (n / 10) acc'
  end.

(** [str(z)], also what [f"{z}"] writes: no more decimal digits than binary
    ones are ever needed. *)
Definition str_of_Z (z : Z) : str :=
  if z <? 0 then String "-" (digits_of (S (Z.to_nat (Z.log2 (- z)))) (- z) EmptyString)
  else digits_of (S (Z.to_nat (Z.log2 z))) z EmptyString.

Definition continuation (n : Z) : bool := (128 <=? n) && (n <=? 191).

(** Second byte of a three-byte sequence: no overlong form, no surrogate. *)
Definition second_of_3 (n0 n1 : Z) : bool :=
  if n0 =? 224 then (160 <=? n1) && (n1 <=? 191)
  else if n0 =? 237 then (128 <=? n1) && (n1 <=? 159)
  else continuation n1.

(** Second byte of a four-byte sequence: no overlong form, at most U+10FFFF. *)
Definition second_of_4 (n0 n1 : Z) : bool :=
  if n0 =? 240 then (144 <=? n1) && (n1 <=? 191)
  else if n0 =? 244 then (128 <=? n1) && (n1 <=? 143)
  else continuation n1.

(** Well-formed UTF-8, as the strict decoder accepts it. *)
Fixpoint utf8_ok (s : bytes) : bool :=
  match s with
  | EmptyString => true
  | String b0 s1 =>
      let n0 := code b0 in
      if n0 <? 128 then utf8_ok s1
      else
        match s1 with
        | EmptyString => false
        | String b1 s2 =>
            let n1 := code b1 in
            if (194 <=? n0) && (n0 <=? 223) then continuation n1 && utf8_ok s2
            else
              match s2 with
              | EmptyString => false
              | String b2 s3 =>
                  let n2 := code b2 in
                  if (224 <=? n0) && (n0 <=? 239) then
                    second_of_3 n0 n1 && continuation n2 && utf8_ok s3
                  else
                    match s3 with
                    | EmptyString => false
                    | String b3 s4 =>
                        (240 <=? n0) && (n0 <=? 244) && second_of_4 n0 n1
                        && continuation n2 && continuation (code b3)
                        && utf8_ok s4
                    end
              end
        end
  end.

(** [msg.decode("utf-8")]. *)
Definition decode_utf8 (msg : bytes) : result str :=
  if utf8_ok msg then Ok msg else Err UnicodeDecodeError.

(** ** The address codec *)

(** [Addr = tuple[str, int]] *)
Definition Addr : Type := str * Z.

Definition addr_eqb (a b : Addr) : bool :=
  String.eqb (fst a) (fst b) && (snd a =? snd b).

Definition parse_addr (addr_string : str) : result Addr :=
  rbind (unpack2 (split ":" addr_string)) (fun '(host, port_string) =>
  match int_of_str port_string with
  | Some port => Ok (host, port)
  | None => Err ValueError
  end).

Definition parse_server_msg (msg : bytes) : result (Addr * Addr) :=
  rbind (decode_utf8 msg) (fun text =>
  rbind (unpack2 (split ";" text)) (fun '(our_addr_string, peer_addr_string) =>
  rbind (parse_addr our_addr_string) (fun our =>
  rbind (parse_addr peer_addr_string) (fun peer =>
  Ok (our, peer))))).

(** The text form of an address, as the f-strings of the client write it:
    [f"{peer[0]}:{peer[1]}"]. *)
Definition format_addr (a : Addr) : str :=
  fst a ++ ":" ++ str_of_Z (snd a).

(** ** The environment: sockets, the network and the process arguments *)

Definition socket := nat.

(** A datagram handed to [sendto]. *)
Record Packet : Type := mkPacket {
  via : socket;
  payload : bytes;
  dest : Addr
}.

(** What one wait on the socket ends with: nothing within the timeout, a
    datagram and its sender, or an exception raised during the wait. *)
Inductive Event : Type :=
| Timeout
| Datagram (msg : bytes) (sender : Addr)
| Interrupted (e : exn).

(** What one [bind] call ends with.  [assigned] is the port the system
    picks when it is asked for port 0. *)
Inductive BindAnswer : Type :=
| Bound (assigned : Z)
| BindRaises (e : exn).

(** [sockets] holds, for every socket created so far, the local port it is
    bound to; [sent] is every datagram sent so far, oldest first; [inbox]
    and [binds] are the script of the environment; [argv] is [sys.argv]. *)
Record World : Type := mkWorld {
  sockets : list (option Z);
  sent : list Packet;
  inbox : list Event;
  binds : list BindAnswer;
  argv : list str
}.

Definition set_sockets (l : list (option Z)) (w : World) : World :=
  mkWorld l (sent w) (inbox w) (binds w) (argv w).
Definition set_sent (l : list Packet) (w : World) : World :=
  mkWorld (sockets w) l (inbox w) (binds w) (argv w).
Definition set_inbox (l : list Event) (w : World) : World :=
  mkWorld (sockets w) (sent w) l (binds w) (argv w).
Definition set_binds (l : list BindAnswer) (w : World) : World :=
  mkWorld (sockets w) (sent w) (inbox w) l (argv w).

(** ** The monad of the client: state, exceptions and waiting *)

Inductive Outcome (A : Type) : Type :=
| Ret (a : A)
| Raise (e : exn)
| Pending.
Arguments Ret {A} a.
Arguments Raise {A} e.
Arguments Pending {A}.

Definition M (A : Type) : Type := World -> Outcome A * World.

Definition ret {A : Type} (a : A) : M A := fun w => (Ret a, w).
Definition raise {A : Type} (e : exn) : M A := fun w => (Raise e, w).
Definition pending {A : Type} : M A := fun w => (Pending, w).

Definition bind {A B : Type} (m : M A) (k : A -> M B) : M B :=
  fun w =>
    match m w with
    | (Ret a, w') => k a w'
    | (Raise e, w') => (Raise e, w')
    | (Pending, w') => (Pending, w')
    end.

Declare Scope client_scope.
Delimit Scope client_scope with client.
Notation "x <- m ;; k" := (bind m (fun x => k))
  (at level 61, m at next level, right associativity) : client_scope.
Notation "' p <- m ;; k" := (bind m (fun p => k))
  (at level 61, p pattern, m at next level, right associativity) : client_scope.
Notation "m ;; k" := (bind m (fun _ => k))
  (at level 61, right associativity) : client_scope.
Local Open Scope client_scope.

Definition lift {A : Type} (r : result A) : M A :=
  match r with
  | Ok a => ret a
  | Err e => raise e
  end.

(** [try: m  except ...: h]; [h e = None] when no clause catches [e]. *)
Definition try_except {A : Type} (m : M A) (h : exn -> option (M A)) : M A :=
  fun w =>
    match m w with
    | (Raise e, w') =>
        match h e with
        | Some handler => handler w'
        | None => (Raise e, w')
        end
    | r => r
    end.

(** [try: m  finally: f].  The clause runs when [m] returns and when it
    raises; what [m] did stands unless the clause itself raises. *)
Definition try_finally {A : Type} (m : M A) (f : M unit) : M A :=
  fun w =>
    match m w with
    | (Pending, w') => (Pending, w')
    | (r, w') =>
        match f w' with
        | (Ret _, w'') => (r, w'')
        | (Raise e, w'') => (Raise e, w'')
        | (Pending, w'') => (Pending, w'')
        end
    end.

(** A loop left only by [break] (or an exception): [body] answers [inl st]
    to go round again and [inr a] to break with [a]. *)
Fixpoint iterate {S A : Type} (fuel : nat) (body : S -> M (S + A)) (st : S) : M A :=
  match fuel with
  | O => pending
  | S f =>
      r <- body st ;;
      match r with
      | inl st' => iterate f body st'
      | inr a => ret a
      end
  end.

(** [for i in l: st = body i st] *)
Fixpoint for_each {S : Type} (l : list nat) (body : nat -> S -> M S) (st : S) : M S :=
  match l with
  | [] => ret st
  | i :: l' => st' <- body i st ;; for_each l' body st'
  end.

(** ** System calls *)

(** [socket.socket(AF_INET, SOCK_DGRAM)]: a new, unbound socket. *)
Definition socket_new : M socket :=
  fun w => (Ret (List.length (sockets w)), set_sockets (sockets w ++ [None])%list w).

Fixpoint set_nth {A : Type} (n : nat) (x : A) (l : list A) : list A :=
  match l, n with
  | [], _ => []
  | _ :: l', O => x :: l'
  | y :: l', S n' => y :: set_nth n' x l'
  end.

(** [s.bind((host, port))] takes the next answer of the script. *)
Definition sock_bind (s : socket) (port : Z) : M unit :=
  fun w =>
    match binds w with
    | [] => (Pending, w)
    | Bound assigned :: bs =>
        let p := if port =? 0 then assigned else port in
        (Ret tt, set_binds bs (set_sockets (set_nth s (Some p) (sockets w)) w))
    | BindRaises e :: bs => (Raise e, set_binds bs w)
    end.

Definition port_of (w : World) (s : socket) : option Z :=
  match nth_error (sockets w) s with
  | Some (Some p) => Some p
  | _ => None
  end.

(** [s.getsockname()] *)
Definition getsockname (s : socket) : M Addr :=
  fun w =>
    match port_of w s with
    | Some p => (Ret ("0.0.0.0", p), w)
    | None => (Ret ("0.0.0.0", 0), w)
    end.

(** [s.sendto(data, dest)] *)
Definition sendto (s : socket) (data : bytes) (to : Addr) : M unit :=
  fun w => (Ret tt, set_sent (sent w ++ [mkPacket s data to])%list w).

(** [select.select([s], [], [], timeout)[0]]: the sockets ready for
    reading.  A timeout uses up its event; a datagram stays in the inbox
    until [recvfrom] takes it.  [timeout_ms] is in milliseconds. *)
Definition select (s : socket) (timeout_ms : Z) : M (list socket) :=
  fun w =>
    match inbox w with
    | [] => (Pending, w)
    | Timeout :: rest => (Ret [], set_inbox rest w)
    | Datagram _ _ :: _ => (Ret [s], w)
    | Interrupted e :: rest => (Raise e, set_inbox rest w)
    end.

(** [s.recvfrom(bufsize)]: the datagram is cut to [bufsize] bytes. *)
Definition recvfrom (s : socket) (bufsize : nat) : M (bytes * Addr) :=
  fun w =>
    match inbox w with
    | Datagram msg sender :: rest =>
        (Ret (substring 0 bufsize msg, sender), set_inbox rest w)
    | Interrupted e :: rest => (Raise e, set_inbox rest w)
    | _ => (Pending, w)
    end.

(** ** The rendezvous protocol *)

Definition make_peer_req (s : socket) (our_id peer_id : str) (remote : Addr) : M unit :=
  let req := "JOIN#" ++ our_id ++ "@" ++ peer_id in
  sendto s req remote.

(** One turn of the loop of [first_peer_fetch]; [i] is the loop counter,
    [s] the socket (reassigned from [ok_read]). *)
Definition first_peer_fetch_body (our_id peer_id : str) (remote : Addr)
    (st : socket * Z) : M (socket * Z + option bytes) :=
  let '(s, i) := st in
  make_peer_req s our_id peer_id remote ;;
  ok_read <- select s 2000 ;;
  match ok_read with
  | s' :: _ =>
      '(msg, sender_addr) <- recvfrom s' 100 ;;
      if addr_eqb sender_addr remote then ret (inr (Some msg))
      else ret (inl (s', i + 1))
  | [] => ret (inl (s, i + 1))
  end.

(** Every turn that goes round again uses up one event of the inbox, so
    the loop never runs out of turns before the script ends. *)
Definition first_peer_fetch (s : socket) (our_id peer_id : str) (remote : Addr) : M Addr :=
  server_msg <- (fun w =>
    iterate (S (List.length (inbox w))) (first_peer_fetch_body our_id peer_id remote) (s, 0) w) ;;
  match server_msg with
  | None => raise (RuntimeError "couldn't get the server message")
  | Some msg =>
      '(our, peer) <- lift (parse_server_msg msg) ;;
      ret peer
  end.

Definition disconnect (s : socket) (our_id peer_id : str)
    (remote_host : str) (remote_port : Z) : M unit :=
  let req := "EXIT#" ++ our_id ++ "@" ++ peer_id in
  sendto s req (remote_host, remote_port).

(** ** The socket manager *)

(** [int(sys.argv[1])], with 9990 for [ValueError] and [IndexError]. *)
Definition src_port_of_argv (args : list str) : Z :=
  match nth_error args 1 with
  | Some a =>
      match int_of_str a with
      | Some port => port
      | None => 9990
      end
  | None => 9990
  end.

(** One turn of the [while True] of [prepare_socket]. *)
Definition prepare_socket_body (s : socket) (port : Z) : M (Z + socket) :=
  try_except
    (sock_bind s port ;; ret (inr s))
    (fun e =>
       match e with
       | OSError errno =>
           Some (if errno =? 48 then ret (inl (port + 1)) else raise e)
       | _ => None
       end).

(** Every turn uses up one answer of the [bind] script. *)
Definition prepare_socket (port : option Z) : M socket :=
  port <- match port with
          | Some p => ret p
          | None => fun w => (Ret (src_port_of_argv (argv w)), w)
          end ;;
  s <- socket_new ;;
  fun w => iterate (S (List.length (binds w))) (prepare_socket_body s) port w.

(** ** The keepalive session *)

Record Stats : Type := mkStats {
  miss_counter : Z;
  got_counter : Z;
  other_counter : Z
}.

Definition Stats_init : Stats := mkStats 0 0 0.
Definition Stats_miss (t : Stats) : Stats :=
  mkStats (miss_counter t + 1) (got_counter t) (other_counter t).
Definition Stats_got (t : Stats) : Stats :=
  mkStats (miss_counter t) (got_counter t + 1) (other_counter t).
Definition Stats_other (t : Stats) : Stats :=
  mkStats (miss_counter t) (got_counter t) (other_counter t + 1).

(** The local variables of [main_loop]. *)
Record Locals : Type := mkLocals {
  cur_s : socket;
  cur_peer : Addr;
  error_clock : Z;
  ok_clock : Z;
  stats : Stats
}.

(** Lines 182-186: [if error_clock == 10: ...] *)
Definition recovery (our_id peer_id : str) (remote : Addr) (st : Locals) : M Locals :=
  if error_clock st =? 10 then
    '(_, port) <- getsockname (cur_s st) ;;
    s <- prepare_socket (Some (port + 1)) ;;
    peer <- first_peer_fetch s our_id peer_id remote ;;
    ret (mkLocals s peer 0 (ok_clock st) (stats st))
  else ret st.

(** Lines 189-207: the ping, the wait and the classification. *)
Definition exchange (remote : Addr) (st : Locals) : M Locals :=
  sendto (cur_s st) "ping" (cur_peer st) ;;
  ok_read <- select (cur_s st) 150 ;;
  match ok_read with
  | s :: _ =>
      '(msg, addr) <- recvfrom s 100 ;;
      if addr_eqb addr (cur_peer st) then
        ret (mkLocals s (cur_peer st) 0 (ok_clock st + 1) (Stats_got (stats st)))
      else if addr_eqb addr remote then
        '(_, peer) <- lift (parse_server_msg msg) ;;
        ret (mkLocals s peer (error_clock st) (ok_clock st) (Stats_other (stats st)))
      else
        ret (mkLocals s (cur_peer st) (error_clock st) (ok_clock st) (Stats_other (stats st)))
  | [] =>
      ret (mkLocals (cur_s st) (cur_peer st) (error_clock st + 1) (ok_clock st)
             (Stats_miss (stats st)))
  end.

(** One turn of [for i in range(100)]; [i] only drives the printing. *)
Definition loop_body (our_id peer_id : str) (remote : Addr) (i : nat) (st : Locals) : M Locals :=
  st1 <- recovery our_id peer_id remote st ;;
  exchange remote st1.

(** The locals when the [for] loop starts. *)
Definition Locals_init (s : socket) (peer : Addr) : Locals :=
  mkLocals s peer 0 0 Stats_init.

(** [main_loop] up to the end of the [for] loop, with its locals. *)
Definition main_loop_locals (s : socket) (our_id peer_id : str) (remote : Addr) : M Locals :=
  peer <- first_peer_fetch s our_id peer_id remote ;;
  for_each (seq 0 100) (loop_body our_id peer_id remote) (Locals_init s peer).

Definition main_loop (s : socket) (our_id peer_id : str) (remote : Addr) : M unit :=
  main_loop_locals s our_id peer_id remote ;;
  ret tt.

(** [main] from line 238 on, the configuration being read:
    [s = prepare_socket()], then [main_loop] under [try ... finally]. *)
Definition main (remote_host : str) (remote_port : Z) (our_id peer_id : str) : M unit :=
  let remote := (remote_host, remote_port) in
  s <- prepare_socket None ;;
  try_finally
    (main_loop s our_id peer_id remote)
    (disconnect s our_id peer_id remote_host remote_port).

(** ** The wording of the specification, for comparison *)

Fixpoint contains (c : ascii) (s : str) : bool :=
  match s with
  | EmptyString => false
  | String c' s' => Ascii.eqb c' c || contains c s'
  end.





(** A round is a hit when its event is a datagram of the peer. *)
Definition is_hit (peer : Addr) (ev : Event) : bool :=
  match ev with
  | Datagram _ sender => addr_eqb sender peer
  | _ => false
  end.

(** [okStreak] as the specification words it: the number of consecutive
    successful rounds at the end of a history of rounds. *)
Definition spec_okStreak (peer : Addr) (history : list Event) : Z :=
  fold_left (fun k ev => if is_hit peer ev then k + 1 else 0) history 0.

(** An address the text form can carry: the host of an [AF_INET] address,
    a dotted quad or a name, holds no colon, and a port has sixteen bits. *)
Definition valid_Endpoint (a : Addr) : Prop :=
  contains ":" (fst a) = false /\ 0 <= snd a <= 65535.

(** ** Vocabulary of the statements *)

Definition join_packet (s : socket) (our_id peer_id : str) (remote : Addr) : Packet :=
  mkPacket s ("JOIN#" ++ our_id ++ "@" ++ peer_id) remote.

Definition exit_packet (s : socket) (our_id peer_id : str) (remote : Addr) : Packet :=
  mkPacket s ("EXIT#" ++ our_id ++ "@" ++ peer_id) remote.

Definition ping_packet (s : socket) (peer : Addr) : Packet :=
  mkPacket s "ping" peer.

(** The world once the datagrams of [log] have been sent. *)
Definition with_sent (log : list Packet) (w : World) : World :=
  set_sent (sent w ++ log)%list w.

Definition in_use : BindAnswer := BindRaises (OSError 48).

(** The events the discovery loop passes over: a timeout, or a datagram
    that does not come from the introducer. *)
Definition ignored (remote : Addr) (ev : Event) : Prop :=
  match ev with
  | Timeout => True
  | Datagram _ sender => addr_eqb sender remote = false
  | Interrupted _ => False
  end.

Fixpoint has_prefix (p s : str) : bool :=
  match p with
  | EmptyString => true
  | String a p' =>
      match s with
      | EmptyString => false
      | String b s' => Ascii.eqb a b && has_prefix p' s'
      end
  end.

Definition is_exit (p : Packet) : bool := has_prefix "EXIT#" (payload p).

(** The number of [EXIT] requests in a log of datagrams. *)
Definition exits (log : list Packet) : nat := List.length (filter is_exit log).

(** [keeps n w w']: from [w] to [w'] the first [n] sockets are left as they
    were, no socket disappears, and the datagrams sent are no [EXIT]
    request. *)
Definition keeps (n : nat) (w w' : World) : Prop :=
  firstn n (sockets w') = firstn n (sockets w)
  /\ (List.length (sockets w) <= List.length (sockets w'))%nat
  /\ exists log, sent w' = (sent w ++ log)%list /\ Forall (fun p => is_exit p = false) log.


(** [m] keeps the first [n] sockets and sends no [EXIT], whatever it ends
    with. *)
Definition M_keeps {A : Type} (n : nat) (m : M A) : Prop :=
  forall w, (n <= List.length (sockets w))%nat -> keeps n w (snd (m w)).

(** A world where the first port asked for is taken and the next is free. *)
Definition world_9990_taken : World := mkWorld [] [] [] [in_use; Bound 0] [].


(** ** Sample data *)

Definition ex_s : socket := 0%nat.
Definition ex_remote : Addr := ("9.9.9.9", 7000).
Definition ex_peer : Addr := ("5.6.7.8", 1234).
Definition ex_peer2 : Addr := ("5.6.7.8", 4321).
Definition ex_stranger : Addr := ("6.6.6.6", 1).
Definition ex_reply : bytes := "1.2.3.4:9990;5.6.7.8:1234".
Definition ex_reply2 : bytes := "1.2.3.4:9991;5.6.7.8:4321".
Definition ex_argv : list str := ["client.py"; "9990"].
Definition ex_pong : Event := Datagram "ping" ex_peer.

(** Ten rounds of silence, then the introducer answers and the peer is
    heard; the socket is bound to 9990 and 9991 is free. *)
Definition world_silence : World :=
  mkWorld [Some 9990] []
    (repeat Timeout 10 ++ [Datagram ex_reply2 ex_remote; Datagram "ping" ex_peer2])
    [Bound 0] ex_argv.

(** A timeout and a stranger's datagram before the introducer answers. *)
Definition world_discovery : World :=
  mkWorld [Some 9990] []
    [Timeout; Datagram "hello" ex_stranger; Datagram ex_reply ex_remote; Timeout]
    [] ex_argv.

(** One event waiting on a bound socket. *)
Definition world_one (ev : Event) : World :=
  mkWorld [Some 9990] [] [ev] [] ex_argv.

(** A hit, a miss, a hit. *)
Definition world_hit_miss_hit : World :=
  mkWorld [Some 9990] [] [ex_pong; Timeout; ex_pong] [] ex_argv.

(** A whole run in which the peer answers every ping. *)
Definition world_all_hits : World :=
  mkWorld [] [] (Datagram ex_reply ex_remote :: repeat ex_pong 100) [Bound 0] ex_argv.



(** ** The configuration (the first part of [main]) *)

(** A Python float, by its exact value [m * 2 ^ e]. *)
Inductive pyfloat : Type :=
| Finite (m e : Z)
| Infinite
| NaN.

(** The values [tomllib] gives to a key: a string, an integer, a boolean,
    a float, or something else (a date, a time, an array, a table). *)
Inductive toml : Type :=
| TStr (s : str)
| TInt (z : Z)
| TBool (b : bool)
| TFloat (f : pyfloat)
| TOther.

(** [int(v)] for a value of the configuration; [None] is the exception it
    raises ([ValueError], [TypeError] or [OverflowError]). *)
Definition int_of_toml (v : toml) : option Z :=
  match v with
  | TStr s => int_of_str s
  | TInt z => Some z
  | TBool b => Some (if b then 1 else 0)
  | TFloat (Finite m e) =>
      Some (if 0 <=? e then m * 2 ^ e else Z.quot m (2 ^ (- e)))
  | TFloat _ => None
  | TOther => None
  end.

(** The table read from [config.toml]. *)
Definition dict : Type := list (str * toml).

(** [data[key]]; [None] is [KeyError]. *)
Fixpoint dict_get (key : str) (d : dict) : option toml :=
  match d with
  | [] => None
  | (k, v) :: d' => if String.eqb k key then Some v else dict_get key d'
  end.

(** What [main] has resolved when it leaves its first [try]. *)
Record Config : Type := mkConfig {
  cfg_remote_host : toml;
  cfg_remote_port : Z;
  cfg_our_id : toml;
  cfg_peer_id : toml
}.

Definition obind {A B : Type} (o : option A) (k : A -> option B) : option B :=
  match o with
  | Some a => k a
  | None => None
  end.

(** Lines 215-236 of [main].  [data] is [None] when [config.toml] cannot be
    opened or is no TOML; the result is [None] when the [except] clause is
    reached, that is when the process exits with status 1. *)
Definition read_config (data : option dict) (args : list str) : option Config :=
  obind data (fun d =>
  obind (dict_get "remote_host" d) (fun remote_host =>
  obind (dict_get "remote_port" d) (fun port_value =>
  obind (int_of_toml port_value) (fun remote_port =>
  obind (dict_get "our_id" d) (fun our_id =>
  let our_id := if (3 <=? List.length args)%nat then TStr (nth 2 args EmptyString) else our_id in
  obind (dict_get "peer_id" d) (fun peer_id =>
  let peer_id := if (4 <=? List.length args)%nat then TStr (nth 3 args EmptyString) else peer_id in
  Some (mkConfig remote_host remote_port our_id peer_id))))))).

(** ** The [Stats] object, with its snapshots *)

(** An instance of [Stats]: the three counters, [last], [start] and [ns]
    (the clock is in nanoseconds; [ns] is 0 until a snapshot is stamped). *)
#[warnings="-register-all"] Inductive StatsObj : Type :=
| mkStatsObj (count : Stats) (last : option StatsObj) (start ns : Z).

Definition so_count (o : StatsObj) : Stats := let '(mkStatsObj c _ _ _) := o in c.
Definition so_last (o : StatsObj) : option StatsObj := let '(mkStatsObj _ l _ _) := o in l.
Definition so_start (o : StatsObj) : Z := let '(mkStatsObj _ _ s _) := o in s.
Definition so_ns (o : StatsObj) : Z := let '(mkStatsObj _ _ _ n) := o in n.

(** [Stats()], the clock reading [now]. *)
Definition StatsObj_new (now : Z) : StatsObj := mkStatsObj Stats_init None now 0.

Inductive StatKind : Type := KMiss | KGot | KOther.

(** [self.miss()], [self.got()], [self.other()] *)
Definition StatsObj_count (k : StatKind) (o : StatsObj) : StatsObj :=
  let f := match k with KMiss => Stats_miss | KGot => Stats_got | KOther => Stats_other end in
  mkStatsObj (f (so_count o)) (so_last o) (so_start o) (so_ns o).

(** What [print_step] and [print_results] write: the three numbers and the
    nanoseconds passed (written in milliseconds by the code). *)
Record Report : Type := mkReport {
  rep_miss : Z;
  rep_got : Z;
  rep_other : Z;
  rep_ns : Z
}.

(** [self.print_step()]; [now1] and [now2] are its two readings of the
    clock.  The snapshot kept in [last] is a deep copy of the whole object
    as it was, its own [last] included. *)
Definition StatsObj_print_step (now1 now2 : Z) (o : StatsObj) : Report * StatsObj :=
  let c := so_count o in
  let report :=
    match so_last o with
    | None =>
        mkReport (miss_counter c) (got_counter c) (other_counter c) (now1 - so_start o)
    | Some l =>
        mkReport (miss_counter c - miss_counter (so_count l))
          (got_counter c - got_counter (so_count l))
          (other_counter c - other_counter (so_count l))
          (now1 - so_ns l)
    end in
  (report,
   mkStatsObj c (Some (mkStatsObj c (so_last o) (so_start o) now2)) (so_start o) (so_ns o)).

(** [self.print_results()] *)
Definition StatsObj_print_results (now : Z) (o : StatsObj) : Report :=
  let c := so_count o in
  mkReport (miss_counter c) (got_counter c) (other_counter c) (now - so_start o).

(** ** Further vocabulary *)

(** An answer of 102 bytes: a host name of 83 letters. *)
Definition ex_long_host : str :=
  "aaaaaaaaaaaaaaaaaaaaaaaaaaaaaaaaaaaaaaaaaaaaaaaaaaaaaaaaaaaaaaaaaaaaaaaaaaaaaaaaaaa".
Definition ex_long_reply : bytes := ex_long_host ++ ":9990;5.6.7.8:12345".

(** The test of [prepare_socket] on the exception of [bind]. *)
Definition exn_is_in_use (e : exn) : bool :=
  match e with
  | OSError errno => errno =? 48
  | _ => false
  end.

Fixpoint ascii_only (s : str) : bool :=
  match s with
  | EmptyString => true
  | String c s' => (code c <? 128) && ascii_only s'
  end.

Definition is_ping (p : Packet) : bool := String.eqb (payload p) "ping".

(** The number of pings in a log of datagrams. *)
Definition pings (log : list Packet) : nat := List.length (filter is_ping log).

Definition Stats_total (t : Stats) : Z :=
  miss_counter t + got_counter t + other_counter t.

(** The counts of a run of events of the three kinds. *)
Definition kind_count (k : StatKind) (l : list StatKind) : Z :=
  Z.of_nat (List.length
    (filter (fun k' => match k, k' with
                       | KMiss, KMiss | KGot, KGot | KOther, KOther => true
                       | _, _ => false
                       end) l)).

(** The number of snapshots an object holds, one inside the other. *)
Fixpoint snapshots (o : StatsObj) : nat :=
  match o with
  | mkStatsObj _ None _ _ => 0
  | mkStatsObj _ (Some l) _ _ => S (snapshots l)
  end.

(** What is done to a [Stats] object between its creation and the end:
    counting an event, or a [print_step] with its two clock readings. *)
Inductive StatsOp : Type :=
| OpCount (k : StatKind)
| OpStep (now1 now2 : Z).

Definition StatsObj_do (op : StatsOp) (o : StatsObj) : StatsObj :=
  match op with
  | OpCount k => StatsObj_count k o
  | OpStep now1 now2 => snd (StatsObj_print_step now1 now2 o)
  end.

Definition is_step (op : StatsOp) : bool :=
  match op with
  | OpStep _ _ => true
  | OpCount _ => false
  end.


(** The object after the events of [ks] have been counted, in order. *)
Definition StatsObj_count_all (ks : list StatKind) (o : StatsObj) : StatsObj :=
  fold_left (fun o k => StatsObj_count k o) ks o.

(** The object after the operations of [ops], in order. *)
Definition StatsObj_do_all (ops : list StatsOp) (o : StatsObj) : StatsObj :=
  fold_left (fun o op => StatsObj_do op o) ops o.

(** The events counted by a run of operations. *)
Definition counted (ops : list StatsOp) : list StatKind :=
  flat_map (fun op => match op with OpCount k => [k] | OpStep _ _ => [] end) ops.



(** * Properties *)

(** ** Characters *)

Lemma digit_char_facts (d : Z) :
  0 <= d < 10 ->
  digit_val (digit_char d) = Some d
  /\ is_space (digit_char d) = false
  /\ Ascii.eqb (digit_char d) "_" = false
  /\ Ascii.eqb (digit_char d) "-" = false
  /\ Ascii.eqb (digit_char d) "+" = false
  /\ Ascii.eqb (digit_char d) ":" = false.
Proof.
  intros Hd.
  assert (Hcases : d = 0 \/ d = 1 \/ d = 2 \/ d = 3 \/ d = 4 \/ d = 5
                   \/ d = 6 \/ d = 7 \/ d = 8 \/ d = 9) by lia.
  repeat (destruct Hcases as [-> | Hcases]; [repeat split; reflexivity |]).
  subst d. repeat split; reflexivity.
Qed.

Lemma mod10_digit (n : Z) : 0 <= n mod 10 < 10.
Proof. apply Z.mod_pos_bound. lia. Qed.

(** ** [split] *)

Lemma split_not_nil (c : ascii) (s : str) : split c s <> [].
Proof.
  destruct s as [| x s']; simpl; [discriminate |].
  destruct (Ascii.eqb x c); [discriminate |].
  destruct (split c s'); discriminate.
Qed.

Lemma split_free (c : ascii) (s : str) :
  contains c s = false -> split c s = [s].
Proof.
  induction s as [| x s' IH]; simpl; intros H; [reflexivity |].
  apply orb_false_iff in H. destruct H as [Hx Hs].
  rewrite Hx, (IH Hs). reflexivity.
Qed.

Lemma split_app (c : ascii) (h t : str) :
  contains c h = false -> split c (h ++ String c t) = h :: split c t.
Proof.
  induction h as [| x h' IH]; simpl; intros H.
  - rewrite Ascii.eqb_refl. reflexivity.
  - apply orb_false_iff in H. destruct H as [Hx Hh].
    rewrite Hx, (IH Hh). reflexivity.
Qed.

Lemma split_one (c : ascii) (s b : str) :
  split c s = [b] -> s = b /\ contains c b = false.
Proof.
  revert b. induction s as [| x s' IH]; simpl; intros b H.
  - injection H as <-. split; reflexivity.
  - destruct (Ascii.eqb x c) eqn:Hx.
    + injection H as _ H. exfalso. exact (split_not_nil c s' H).
    + destruct (split c s') as [| p ps] eqn:Hsp.
      * exfalso. exact (split_not_nil c s' Hsp).
      * injection H as <- Hps.
        subst ps. destruct (IH p eq_refl) as [-> Hp].
        split; [reflexivity |]. simpl. rewrite Hx, Hp. reflexivity.
Qed.

Lemma split_two (c : ascii) (s a b : str) :
  split c s = [a; b] ->
  s = a ++ String c b /\ contains c a = false /\ contains c b = false.
Proof.
  revert a. induction s as [| x s' IH]; simpl; intros a H; [discriminate |].
  destruct (Ascii.eqb x c) eqn:Hx.
  - injection H as <- H. apply Ascii.eqb_eq in Hx. subst x.
    apply split_one in H. destruct H as [-> Hb]. repeat split; assumption.
  - destruct (split c s') as [| p ps] eqn:Hsp; [discriminate |].
    injection H as <- Hps.
    subst ps. destruct (IH p eq_refl) as (-> & Hp & Hb).
      repeat split; [| assumption]. simpl. rewrite Hx, Hp. reflexivity.
Qed.

(** ** [int] and [str] *)

Lemma digits_of_head (fuel : nat) (n : Z) (tl : str) :
  exists d rest, 0 <= d < 10 /\ digits_of (S fuel) n tl = String (digit_char d) rest.
Proof.
  revert n tl. induction fuel as [| f IH]; intros n tl.
  - exists (n mod 10), tl. split; [apply mod10_digit |].
    simpl. destruct (n <? 10); reflexivity.
  - change (digits_of (S (S f)) n tl)
      with (if n <? 10 then String (digit_char (n mod 10)) tl
            else digits_of (S f) (n / 10) (String (digit_char (n mod 10)) tl)).
    destruct (n <? 10).
    + exists (n mod 10), tl. split; [apply mod10_digit | reflexivity].
    + apply IH.
Qed.

Lemma digits_of_free (fuel : nat) (n : Z) (tl : str) :
  contains ":" tl = false -> contains ":" (digits_of fuel n tl) = false.
Proof.
  revert n tl. induction fuel as [| f IH]; intros n tl Htl; [exact Htl |].
  assert (Hacc : contains ":" (String (digit_char (n mod 10)) tl) = false).
  { simpl. destruct (digit_char_facts (n mod 10) (mod10_digit n)) as (_ & _ & _ & _ & _ & ->).
    exact Htl. }
  simpl. destruct (n <? 10); [exact Hacc | apply IH; exact Hacc].
Qed.

(** Scanning the digits written by [digits_of] adds them to the value read
    so far. *)
Lemma scan_digit (a c d : Z) (tl : str) :
  0 <= d < 10 ->
  scan_digits false a c (String (digit_char d) tl)
  = scan_digits false (a * 10 + d) (c + 1) tl.
Proof.
  intros Hd. simpl.
  destruct (digit_char_facts d Hd) as (-> & _). reflexivity.
Qed.

Lemma scan_digits_of (f : nat) :
  forall n a c tl,
    0 <= n < 2 ^ Z.of_nat (S f) ->
    exists k, 1 <= k <= Z.of_nat (S f)
      /\ scan_digits false a c (digits_of (S f) n tl)
         = scan_digits false (a * 10 ^ k + n) (c + k) tl.
Proof.
  induction f as [| f IH]; intros n a c tl Hn.
  - exists 1. split; [lia |].
    change (2 ^ Z.of_nat 1) with 2 in Hn.
    assert (Hm : n mod 10 = n) by (apply Z.mod_small; lia).
    simpl digits_of. rewrite Hm.
    destruct (n <? 10); rewrite scan_digit by lia; f_equal; lia.
  - change (digits_of (S (S f)) n tl)
      with (if n <? 10 then String (digit_char (n mod 10)) tl
            else digits_of (S f) (n / 10) (String (digit_char (n mod 10)) tl)).
    destruct (Z.ltb_spec n 10) as [Hlt | Hge].
    + exists 1. split; [lia |].
      rewrite Z.mod_small by lia. rewrite scan_digit by lia. f_equal; lia.
    + assert (Hdiv : 0 <= n / 10 < 2 ^ Z.of_nat (S f)).
      { split; [apply Z.div_pos; lia |].
        apply Z.div_lt_upper_bound; [lia |].
        replace (Z.of_nat (S (S f))) with (Z.succ (Z.of_nat (S f))) in Hn by lia.
        rewrite Z.pow_succ_r in Hn by lia. lia. }
      destruct (IH (n / 10) a c (String (digit_char (n mod 10)) tl) Hdiv)
        as (k & Hk & Heq).
      exists (k + 1). split; [lia |].
      rewrite Heq, scan_digit by apply mod10_digit.
      f_equal; [| lia].
      replace (k + 1) with (Z.succ k) by lia.
      rewrite Z.pow_succ_r by lia.
      pose proof (Z.div_mod n 10 ltac:(lia)). lia.
Qed.

Lemma int_unsigned_digits (z : Z) :
  0 <= z < 2 ^ 4300 ->
  int_unsigned (digits_of (S (Z.to_nat (Z.log2 z))) z EmptyString) = Some z.
Proof.
  intros Hz.
  set (f := Z.to_nat (Z.log2 z)).
  assert (Hlog : 0 <= Z.log2 z < 4300).
  { split; [apply Z.log2_nonneg |].
    destruct (Z.eq_dec z 0) as [-> | Hnz]; [reflexivity |].
    apply Z.log2_lt_pow2; lia. }
  assert (Hfuel : 0 <= z < 2 ^ Z.of_nat (S f)).
  { split; [lia |]. unfold f.
    replace (Z.of_nat (S (Z.to_nat (Z.log2 z)))) with (Z.succ (Z.log2 z)) by lia.
    destruct (Z.eq_dec z 0) as [-> | Hnz]; [reflexivity |].
    apply Z.log2_spec. lia. }
  destruct (scan_digits_of f z 0 0 EmptyString Hfuel) as (k & Hk & Hscan).
  destruct (digits_of_head f z EmptyString) as (d & rest & Hd & Hhead).
  rewrite Z.mul_0_l, !Z.add_0_l in Hscan.
  unfold int_unsigned. rewrite Hscan. rewrite Hhead. simpl starts_with.
  destruct (digit_char_facts d Hd) as (_ & _ & -> & _).
  simpl scan_digits. cbv iota beta.
  assert (E0 : (k =? 0) = false) by (apply Z.eqb_neq; lia).
  assert (Emax : (int_max_str_digits <? k) = false)
    by (apply Z.ltb_ge; unfold int_max_str_digits, f in *; lia).
  rewrite E0, Emax. reflexivity.
Qed.

Lemma int_of_str_minus (s : str) :
  int_of_str (String "-" s) = option_map Z.opp (int_unsigned s).
Proof. reflexivity. Qed.

(** [int(str(z)) == z], as long as [str(z)] stays within the digit limit. *)
Lemma int_of_str_of_Z (z : Z) :
  Z.abs z < 2 ^ 4300 -> int_of_str (str_of_Z z) = Some z.
Proof.
  intros Hz. unfold str_of_Z.
  destruct (Z.ltb_spec z 0) as [Hneg | Hpos].
  - rewrite int_of_str_minus, int_unsigned_digits by lia.
    simpl. f_equal. lia.
  - destruct (digits_of_head (Z.to_nat (Z.log2 z)) z EmptyString)
      as (d & rest & Hd & Hhead).
    pose proof (int_unsigned_digits z ltac:(lia)) as Hu.
    rewrite Hhead in *.
    destruct (digit_char_facts d Hd) as (_ & Hsp & _ & Hminus & Hplus & _).
    unfold int_of_str. simpl lstrip. rewrite Hsp, Hminus, Hplus. exact Hu.
Qed.

Lemma str_of_Z_free (z : Z) : contains ":" (str_of_Z z) = false.
Proof.
  unfold str_of_Z. destruct (z <? 0).
  - change (contains ":" (String "-" ?s)) with (contains ":" s).
    apply digits_of_free. reflexivity.
  - apply digits_of_free. reflexivity.
Qed.

(** ** The address codec *)

Lemma unpack2_Ok {A : Type} (l : list A) (a b : A) :
  unpack2 l = Ok (a, b) <-> l = [a; b].
Proof.
  split.
  - destruct l as [| x [| y [| z l']]]; simpl; try discriminate.
    intros H. injection H as -> ->. reflexivity.
  - intros ->. reflexivity.
Qed.

Lemma unpack2_Err {A : Type} (l : list A) (e : exn) :
  unpack2 l = Err e -> e = ValueError.
Proof.
  destruct l as [| x [| y [| z l']]]; simpl; intros H;
    solve [discriminate | injection H as <-; reflexivity].
Qed.

Lemma parse_addr_Ok_iff (s host : str) (port : Z) :
  parse_addr s = Ok (host, port) <->
  exists port_string,
    s = host ++ ":" ++ port_string
    /\ contains ":" host = false
    /\ contains ":" port_string = false
    /\ int_of_str port_string = Some port.
Proof.
  unfold parse_addr. split.
  - destruct (unpack2 (split ":" s)) as [[h ps] |] eqn:Hu; simpl; [| discriminate].
    destruct (int_of_str ps) as [p |] eqn:Hint; [| discriminate].
    intros H. injection H as -> ->.
    apply unpack2_Ok, split_two in Hu. destruct Hu as (-> & Hh & Hps).
    exists ps. repeat split; assumption.
  - intros (ps & -> & Hh & Hps & Hint).
    change (host ++ ":" ++ ps) with (host ++ String ":" ps).
    rewrite (split_app ":" host ps Hh), (split_free ":" ps Hps).
    simpl. rewrite Hint. reflexivity.
Qed.

Lemma parse_addr_Err (s : str) (e : exn) : parse_addr s = Err e -> e = ValueError.
Proof.
  unfold parse_addr.
  destruct (unpack2 (split ":" s)) as [[h ps] |] eqn:Hu; simpl.
  - destruct (int_of_str ps); [discriminate |].
    intros H. injection H as <-. reflexivity.
  - intros H. injection H as <-. exact (unpack2_Err _ _ Hu).
Qed.



(** C9: the text form of a valid address is parsed back to that address. *)
Theorem parse_addr_format_addr (e : Addr) :
  valid_Endpoint e -> parse_addr (format_addr e) = Ok e.
Proof.
  destruct e as [host port]. unfold valid_Endpoint, format_addr. simpl fst. simpl snd.
  intros [Hhost Hport]. unfold parse_addr.
  change (host ++ ":" ++ str_of_Z port) with (host ++ String ":" (str_of_Z port)).
  rewrite (split_app ":" host _ Hhost), (split_free ":" _ (str_of_Z_free port)).
  simpl. rewrite int_of_str_of_Z; [reflexivity |].
  apply Z.le_lt_trans with (2 ^ 16); [| reflexivity].
  change (2 ^ 16) with 65536. lia.
Qed.

Lemma parse_addr_format_addr_witness :
  valid_Endpoint ("1.2.3.4", 9990)
  /\ parse_addr (format_addr ("1.2.3.4", 9990)) = Ok ("1.2.3.4", 9990).
Proof.
  assert (Hv : valid_Endpoint ("1.2.3.4", 9990)).
  { split; [reflexivity | simpl; lia]. }
  split; [exact Hv | exact (parse_addr_format_addr ("1.2.3.4", 9990) Hv)].
Defined.

(** The condition on the host cannot be dropped: a host with a colon does
    not come back. *)
Lemma format_addr_colon_host (host : str) (port : Z) :
  parse_addr (format_addr (host, port)) = Ok (host, port) -> contains ":" host = false.
Proof.
  intros H. apply parse_addr_Ok_iff in H. destruct H as (ps & _ & Hh & _). exact Hh.
Qed.

(** ** Addresses *)

Lemma addr_eqb_eq (a b : Addr) : addr_eqb a b = true <-> a = b.
Proof.
  destruct a as [h p], b as [h' p']. unfold addr_eqb. simpl.
  rewrite andb_true_iff, String.eqb_eq, Z.eqb_eq.
  split; [intros [-> ->]; reflexivity | intros H; injection H as -> ->; auto].
Qed.

Lemma addr_eqb_refl (a : Addr) : addr_eqb a a = true.
Proof. apply addr_eqb_eq. reflexivity. Qed.

Lemma addr_eqb_neq (a b : Addr) : addr_eqb a b = false <-> a <> b.
Proof.
  split.
  - intros H E. apply addr_eqb_eq in E. congruence.
  - intros H. destruct (addr_eqb a b) eqn:E; [| reflexivity].
    apply addr_eqb_eq in E. contradiction.
Qed.

(** ** Loops *)

Lemma iterate_S {S A : Type} (fuel : nat) (body : S -> M (S + A)) (st : S) :
  iterate (Datatypes.S fuel) body st
  = (r <- body st ;;
     match r with
     | inl st' => iterate fuel body st'
     | inr a => ret a
     end).
Proof. reflexivity. Qed.

Lemma for_each_cons {S : Type} (i : nat) (l : list nat) (body : nat -> S -> M S) (st : S) :
  for_each (i :: l) body st = (st' <- body i st ;; for_each l body st').
Proof. reflexivity. Qed.

(** ** The socket manager *)

Lemma set_binds_same (w : World) : set_binds (binds w) w = w.
Proof. destruct w; reflexivity. Qed.

Lemma set_nth_last {A : Type} (l : list A) (x y : A) :
  set_nth (List.length l) y (l ++ [x])%list = (l ++ [y])%list.
Proof. induction l as [| a l IH]; simpl; [reflexivity | rewrite IH; reflexivity]. Qed.

Lemma prepare_socket_body_in_use (s : socket) (port : Z) (w : World) (bs : list BindAnswer) :
  binds w = in_use :: bs ->
  prepare_socket_body s port w = (Ret (inl (port + 1)), set_binds bs w).
Proof.
  intros H. unfold prepare_socket_body, try_except, bind, sock_bind.
  rewrite H. reflexivity.
Qed.

Lemma prepare_socket_body_bound (s : socket) (port a : Z) (w : World) (bs : list BindAnswer) :
  binds w = Bound a :: bs ->
  prepare_socket_body s port w
  = (Ret (inr s),
     set_binds bs
       (set_sockets (set_nth s (Some (if port =? 0 then a else port)) (sockets w)) w)).
Proof.
  intros H. unfold prepare_socket_body, try_except, bind, sock_bind.
  rewrite H. reflexivity.
Qed.

Lemma prepare_socket_body_fatal (s : socket) (port : Z) (w : World)
    (e : exn) (bs : list BindAnswer) :
  binds w = BindRaises e :: bs -> e <> OSError 48 ->
  prepare_socket_body s port w = (Raise e, set_binds bs w).
Proof.
  intros H He. unfold prepare_socket_body, try_except, bind, sock_bind.
  rewrite H. destruct e as [| | errno | msg | name]; try reflexivity.
  destruct (Z.eqb_spec errno 48) as [-> | Hne]; [contradiction | reflexivity].
Qed.

Lemma prepare_socket_body_pending (s : socket) (port : Z) (w : World) :
  binds w = [] -> prepare_socket_body s port w = (Pending, w).
Proof.
  intros H. unfold prepare_socket_body, try_except, bind, sock_bind.
  rewrite H. reflexivity.
Qed.

(** Ports in use are passed over one by one. *)
Lemma prepare_socket_loop_in_use (s : socket) (k : nat) :
  forall (fuel : nat) (port : Z) (w : World) (rest : list BindAnswer),
    binds w = (repeat in_use k ++ rest)%list ->
    iterate (k + fuel) (prepare_socket_body s) port w
    = iterate fuel (prepare_socket_body s) (port + Z.of_nat k) (set_binds rest w).
Proof.
  induction k as [| k IH]; intros fuel port w rest H.
  - simpl in H. rewrite <- H, set_binds_same. f_equal. simpl. lia.
  - change (binds w = in_use :: (repeat in_use k ++ rest)%list) in H.
    change (S k + fuel)%nat with (S (k + fuel)).
    rewrite iterate_S. unfold bind.
    rewrite (prepare_socket_body_in_use s port w _ H).
    rewrite (IH fuel (port + 1) _ rest) by reflexivity.
    f_equal. lia.
Qed.

(** The call, once [k] ports in use have been passed over: the socket is
    made, and the loop is at port [port + k] with the rest of the script. *)
Lemma prepare_socket_after_in_use (k : nat) (port : Z) (w : World) (rest : list BindAnswer) :
  binds w = (repeat in_use k ++ rest)%list ->
  prepare_socket (Some port) w
  = iterate (S (List.length rest)) (prepare_socket_body (List.length (sockets w)))
      (port + Z.of_nat k)
      (set_binds rest (set_sockets (sockets w ++ [None])%list w)).
Proof.
  intros H. unfold prepare_socket, bind, ret, socket_new.
  set (w1 := set_sockets (sockets w ++ [None])%list w).
  assert (Hb : binds w1 = (repeat in_use k ++ rest)%list) by exact H.
  rewrite Hb, length_app, repeat_length.
  replace (S (k + List.length rest)) with (k + S (List.length rest))%nat by lia.
  apply prepare_socket_loop_in_use. exact Hb.
Qed.



(** ** Discovery *)

Lemma set_inbox_same (w : World) : set_inbox (inbox w) w = w.
Proof. destruct w; reflexivity. Qed.

Lemma set_sent_nil (w : World) : with_sent [] w = w.
Proof. destruct w; unfold with_sent, set_sent; simpl. rewrite app_nil_r. reflexivity. Qed.

Section Discovery.
Variables (our_id peer_id : str) (remote : Addr).

Lemma fetch_body_ignored (s : socket) (i : Z) (w : World) (ev : Event) (rest : list Event) :
  inbox w = ev :: rest -> ignored remote ev ->
  first_peer_fetch_body our_id peer_id remote (s, i) w
  = (Ret (inl (s, i + 1)),
     set_inbox rest (with_sent [join_packet s our_id peer_id remote] w)).
Proof.
  intros H Hev.
  unfold first_peer_fetch_body, make_peer_req, bind, sendto, select, recvfrom.
  simpl. rewrite H.
  destruct ev as [| msg sender | e]; simpl in Hev; [reflexivity | | contradiction].
  simpl. rewrite H. simpl. rewrite Hev. reflexivity.
Qed.

Lemma fetch_body_accepted (s : socket) (i : Z) (w : World) (msg : bytes) (rest : list Event) :
  inbox w = Datagram msg remote :: rest ->
  first_peer_fetch_body our_id peer_id remote (s, i) w
  = (Ret (inr (Some (substring 0 100 msg))),
     set_inbox rest (with_sent [join_packet s our_id peer_id remote] w)).
Proof.
  intros H.
  unfold first_peer_fetch_body, make_peer_req, bind, sendto, select, recvfrom.
  simpl. rewrite H. simpl. rewrite H. simpl. rewrite addr_eqb_refl. reflexivity.
Qed.

Lemma fetch_body_pending (s : socket) (i : Z) (w : World) :
  inbox w = [] ->
  first_peer_fetch_body our_id peer_id remote (s, i) w
  = (Pending, with_sent [join_packet s our_id peer_id remote] w).
Proof.
  intros H.
  unfold first_peer_fetch_body, make_peer_req, bind, sendto, select.
  simpl. rewrite H. reflexivity.
Qed.

Lemma fetch_body_interrupted (s : socket) (i : Z) (w : World) (e : exn) (rest : list Event) :
  inbox w = Interrupted e :: rest ->
  first_peer_fetch_body our_id peer_id remote (s, i) w
  = (Raise e, set_inbox rest (with_sent [join_packet s our_id peer_id remote] w)).
Proof.
  intros H.
  unfold first_peer_fetch_body, make_peer_req, bind, sendto, select.
  simpl. rewrite H. reflexivity.
Qed.

(** Every inbox is a run of ignored events that ends with the script, with
    a datagram of the introducer, or with an exception. *)
Lemma inbox_shape (l : list Event) :
  exists pre,
    Forall (ignored remote) pre
    /\ (l = pre
        \/ (exists msg rest, l = (pre ++ Datagram msg remote :: rest)%list)
        \/ (exists e rest, l = (pre ++ Interrupted e :: rest)%list)).
Proof.
  induction l as [| ev l (pre & Hpre & Hshape)].
  - exists []. split; [constructor | left; reflexivity].
  - assert (Hcons : ignored remote ev ->
              exists pre',
                Forall (ignored remote) pre'
                /\ (ev :: l = pre'
                    \/ (exists msg rest, ev :: l = (pre' ++ Datagram msg remote :: rest)%list)
                    \/ (exists e rest, ev :: l = (pre' ++ Interrupted e :: rest)%list))).
    { intros Hev. exists (ev :: pre). split; [constructor; assumption |].
      destruct Hshape as [-> | [(msg & rest & ->) | (e & rest & ->)]].
      - left. reflexivity.
      - right. left. exists msg, rest. reflexivity.
      - right. right. exists e, rest. reflexivity. }
    destruct ev as [| msg sender | e].
    + apply Hcons. exact I.
    + destruct (addr_eqb sender remote) eqn:E.
      * apply addr_eqb_eq in E. subst sender.
        exists []. split; [constructor |]. right. left. exists msg, l. reflexivity.
      * apply Hcons. exact E.
    + exists []. split; [constructor |]. right. right. exists e, l. reflexivity.
Qed.

(** The loop passes over every ignored event, one [JOIN] each. *)
Lemma fetch_loop_ignored (s : socket) (pre : list Event) :
  Forall (ignored remote) pre ->
  forall (fuel : nat) (i : Z) (w : World) (rest : list Event),
    inbox w = (pre ++ rest)%list ->
    iterate (List.length pre + fuel) (first_peer_fetch_body our_id peer_id remote) (s, i) w
    = iterate fuel (first_peer_fetch_body our_id peer_id remote)
        (s, i + Z.of_nat (List.length pre))
        (set_inbox rest
           (with_sent (repeat (join_packet s our_id peer_id remote) (List.length pre)) w)).
Proof.
  induction 1 as [| ev pre Hev Hpre IH]; intros fuel i w rest H.
  - simpl in H. simpl List.length. simpl repeat.
    rewrite set_sent_nil, <- H, set_inbox_same. f_equal. f_equal. simpl. lia.
  - change (inbox w = ev :: (pre ++ rest)%list) in H.
    change (List.length (ev :: pre) + fuel)%nat with (S (List.length pre + fuel)).
    rewrite iterate_S. unfold bind.
    rewrite (fetch_body_ignored s i w ev _ H Hev).
    rewrite (IH fuel (i + 1) _ rest) by reflexivity.
    replace (i + 1 + Z.of_nat (List.length pre))
      with (i + Z.of_nat (List.length (ev :: pre))) by (simpl List.length; lia).
    f_equal.
    unfold with_sent, set_inbox, set_sent. simpl. f_equal.
    rewrite <- app_assoc. reflexivity.
Qed.

(** What the call makes of the turn that ends the loop. *)
Lemma fetch_after_ignored (s : socket) (w : World) (pre tl : list Event) :
  Forall (ignored remote) pre ->
  inbox w = (pre ++ tl)%list ->
  first_peer_fetch s our_id peer_id remote w
  = (server_msg <- iterate (S (List.length tl)) (first_peer_fetch_body our_id peer_id remote)
                     (s, Z.of_nat (List.length pre)) ;;
     match server_msg with
     | None => raise (RuntimeError "couldn't get the server message")
     | Some msg => ' (our, peer) <- lift (parse_server_msg msg) ;; ret peer
     end)
      (set_inbox tl
         (with_sent (repeat (join_packet s our_id peer_id remote) (List.length pre)) w)).
Proof.
  intros Hpre H. unfold first_peer_fetch.
  unfold bind at 1. rewrite H at 1. rewrite length_app.
  replace (S (List.length pre + List.length tl))
    with (List.length pre + S (List.length tl))%nat by lia.
  rewrite (fetch_loop_ignored s pre Hpre _ 0 w tl H).
  reflexivity.
Qed.

Lemma repeat_snoc (x : Packet) (n : nat) : (repeat x n ++ [x])%list = repeat x (S n).
Proof.
  induction n as [| n IH]; simpl; [reflexivity |].
  simpl in IH. rewrite IH. reflexivity.
Qed.


End Discovery.

(** ** One keepalive round *)

(** What the ping of a round does to the world. *)
Lemma exchange_timeout (remote : Addr) (st : Locals) (w : World) (rest : list Event) :
  inbox w = Timeout :: rest ->
  exchange remote st w
  = (Ret (mkLocals (cur_s st) (cur_peer st) (error_clock st + 1) (ok_clock st)
            (Stats_miss (stats st))),
     set_inbox rest (with_sent [ping_packet (cur_s st) (cur_peer st)] w)).
Proof.
  intros H. unfold exchange, bind, sendto, select. simpl. rewrite H. reflexivity.
Qed.

Lemma exchange_hit (remote : Addr) (st : Locals) (w : World)
    (msg : bytes) (addr : Addr) (rest : list Event) :
  inbox w = Datagram msg addr :: rest ->
  addr = cur_peer st ->
  exchange remote st w
  = (Ret (mkLocals (cur_s st) (cur_peer st) 0 (ok_clock st + 1) (Stats_got (stats st))),
     set_inbox rest (with_sent [ping_packet (cur_s st) (cur_peer st)] w)).
Proof.
  intros H ->. unfold exchange, bind, sendto, select, recvfrom. simpl. rewrite H.
  simpl. rewrite H. simpl. rewrite addr_eqb_refl. reflexivity.
Qed.

Lemma exchange_update (remote : Addr) (st : Locals) (w : World)
    (msg : bytes) (rest : list Event) :
  inbox w = Datagram msg remote :: rest ->
  remote <> cur_peer st ->
  exchange remote st w
  = (match parse_server_msg (substring 0 100 msg) with
     | Ok (_, peer) =>
         Ret (mkLocals (cur_s st) peer (error_clock st) (ok_clock st)
                (Stats_other (stats st)))
     | Err e => Raise e
     end,
     set_inbox rest (with_sent [ping_packet (cur_s st) (cur_peer st)] w)).
Proof.
  intros H Hne. apply addr_eqb_neq in Hne.
  unfold exchange, bind, sendto, select, recvfrom. simpl. rewrite H.
  simpl. rewrite H. simpl. rewrite Hne, addr_eqb_refl.
  destruct (parse_server_msg (substring 0 100 msg)) as [[our peer] | e]; reflexivity.
Qed.

Lemma exchange_other (remote : Addr) (st : Locals) (w : World)
    (msg : bytes) (addr : Addr) (rest : list Event) :
  inbox w = Datagram msg addr :: rest ->
  addr <> cur_peer st -> addr <> remote ->
  exchange remote st w
  = (Ret (mkLocals (cur_s st) (cur_peer st) (error_clock st) (ok_clock st)
            (Stats_other (stats st))),
     set_inbox rest (with_sent [ping_packet (cur_s st) (cur_peer st)] w)).
Proof.
  intros H Hp Hr. apply addr_eqb_neq in Hp, Hr.
  unfold exchange, bind, sendto, select, recvfrom. simpl. rewrite H.
  simpl. rewrite H. simpl. rewrite Hp, Hr. reflexivity.
Qed.






(** ** The miss streak and the recovery *)

Section Session.
Variables (our_id peer_id : str) (remote : Addr).




(** ** The ok streak *)

Lemma recovery_counts (st st' : Locals) (w w' : World) :
  recovery our_id peer_id remote st w = (Ret st', w') ->
  ok_clock st' = ok_clock st /\ stats st' = stats st.
Proof.
  unfold recovery. destruct (error_clock st =? 10).
  - unfold bind, getsockname.
    destruct (port_of w (cur_s st)); simpl;
      (destruct (prepare_socket _ w) as [[s | e |] w1]; [| discriminate | discriminate];
       destruct (first_peer_fetch s our_id peer_id remote w1) as [[p | e |] w2];
       [| discriminate | discriminate];
       unfold ret; intros H; injection H as <- _; split; reflexivity).
  - unfold ret. intros H. injection H as <- _. split; reflexivity.
Qed.

Lemma exchange_counts (st st' : Locals) (w w' : World) (ev : Event) (rest : list Event) :
  inbox w = ev :: rest ->
  exchange remote st w = (Ret st', w') ->
  ok_clock st' = ok_clock st + (if is_hit (cur_peer st) ev then 1 else 0)
  /\ got_counter (stats st') = got_counter (stats st) + (if is_hit (cur_peer st) ev then 1 else 0).
Proof.
  intros H. unfold exchange, bind, sendto, select, recvfrom. simpl. rewrite H.
  destruct ev as [| msg addr | e]; simpl.
  - unfold ret. intros E. injection E as <- _. simpl. lia.
  - rewrite H. simpl. destruct (addr_eqb addr (cur_peer st)).
    + unfold ret. intros E. injection E as <- _. simpl. lia.
    + destruct (addr_eqb addr remote).
      * unfold lift. destruct (parse_server_msg (substring 0 100 msg)) as [[our peer] | e];
          [| discriminate].
        unfold ret. intros E. injection E as <- _. simpl. lia.
      * unfold ret. intros E. injection E as <- _. simpl. lia.
  - discriminate.
Qed.

Lemma exchange_needs_event (st st' : Locals) (w w' : World) :
  exchange remote st w = (Ret st', w') -> inbox w <> [].
Proof.
  unfold exchange, bind, sendto, select. simpl.
  destruct (inbox w); [discriminate | discriminate].
Qed.

Lemma round_counts (i : nat) (st st' : Locals) (w w' : World) :
  loop_body our_id peer_id remote i st w = (Ret st', w') ->
  ok_clock st' - ok_clock st = got_counter (stats st') - got_counter (stats st)
  /\ ok_clock st <= ok_clock st'.
Proof.
  unfold loop_body, bind.
  destruct (recovery our_id peer_id remote st w) as [[st1 | e |] w1] eqn:Hrec;
    [| discriminate | discriminate].
  intros Hex. destruct (recovery_counts _ _ _ _ Hrec) as [Hok Hst].
  pose proof (exchange_needs_event _ _ _ _ Hex) as Hne.
  destruct (inbox w1) as [| ev rest] eqn:Hin; [contradiction |].
  destruct (exchange_counts _ _ _ _ ev rest Hin Hex) as [H1 H2].
  rewrite Hok, Hst in *. destruct (is_hit (cur_peer st1) ev); lia.
Qed.

(** C6, as the code has it: [ok_clock] is the number of hit rounds so far.
    A round adds one to it when its datagram comes from the peer and
    leaves it alone otherwise, and nothing resets it: over any run of
    rounds it moves exactly as the [got] counter of the statistics does
    and never goes down. *)
Theorem ok_clock_counts_hits :
  (forall st st' w w' ev rest,
      inbox w = ev :: rest ->
      exchange remote st w = (Ret st', w') ->
      ok_clock st' = ok_clock st + (if is_hit (cur_peer st) ev then 1 else 0))
  /\ (forall l st st' w w',
         for_each l (loop_body our_id peer_id remote) st w = (Ret st', w') ->
         ok_clock st' - ok_clock st = got_counter (stats st') - got_counter (stats st)
         /\ ok_clock st <= ok_clock st').
Proof.
  split.
  - intros st st' w w' ev rest H Hex.
    exact (proj1 (exchange_counts st st' w w' ev rest H Hex)).
  - induction l as [| i l IH]; intros st st' w w'.
    + simpl. unfold ret. intros H. injection H as <- _. lia.
    + rewrite for_each_cons. unfold bind.
      destruct (loop_body our_id peer_id remote i st w) as [[st1 | e |] w1] eqn:Hr;
        [| discriminate | discriminate].
      intros Hl. pose proof (round_counts _ _ _ _ _ Hr). pose proof (IH _ _ _ _ Hl). lia.
Qed.

(** The miss streak stays between 0 and the threshold, so the test
    [error_clock == 10] cannot be stepped over. *)
Lemma recovery_clock (st st' : Locals) (w w' : World) :
  recovery our_id peer_id remote st w = (Ret st', w') ->
  error_clock st' = (if error_clock st =? 10 then 0 else error_clock st).
Proof.
  unfold recovery. destruct (error_clock st =? 10).
  - unfold bind, getsockname.
    destruct (port_of w (cur_s st)); simpl;
      (destruct (prepare_socket _ w) as [[s | e |] w1]; [| discriminate | discriminate];
       destruct (first_peer_fetch s our_id peer_id remote w1) as [[p | e |] w2];
       [| discriminate | discriminate];
       unfold ret; intros H; injection H as <- _; reflexivity).
  - unfold ret. intros H. injection H as <- _. reflexivity.
Qed.

Lemma exchange_clock (st st' : Locals) (w w' : World) :
  exchange remote st w = (Ret st', w') ->
  error_clock st' = 0 \/ error_clock st' = error_clock st
  \/ error_clock st' = error_clock st + 1.
Proof.
  unfold exchange, bind, sendto, select, recvfrom. simpl.
  destruct (inbox w) as [| [| msg addr | e] rest] eqn:H; simpl; try discriminate.
  - unfold ret. intros E. injection E as <- _. simpl. auto.
  - rewrite H. simpl. destruct (addr_eqb addr (cur_peer st)).
    + unfold ret. intros E. injection E as <- _. simpl. auto.
    + destruct (addr_eqb addr remote).
      * unfold lift. destruct (parse_server_msg (substring 0 100 msg)) as [[our peer] | e];
          [| discriminate].
        unfold ret. intros E. injection E as <- _. simpl. auto.
      * unfold ret. intros E. injection E as <- _. simpl. auto.
Qed.

Lemma error_clock_bounded (l : list nat) :
  forall (st st' : Locals) (w w' : World),
    0 <= error_clock st <= 10 ->
    for_each l (loop_body our_id peer_id remote) st w = (Ret st', w') ->
    0 <= error_clock st' <= 10.
Proof.
  induction l as [| i l IH]; intros st st' w w' Hst.
  - simpl. unfold ret. intros H. injection H as <- _. exact Hst.
  - rewrite for_each_cons. unfold bind at 1, loop_body at 1, bind at 1.
    destruct (recovery our_id peer_id remote st w) as [[st1 | e |] w1] eqn:Hrec;
      [| discriminate | discriminate].
    destruct (exchange remote st1 w1) as [[st2 | e |] w2] eqn:Hex;
      [| discriminate | discriminate].
    apply IH.
    pose proof (recovery_clock _ _ _ _ Hrec) as H1.
    pose proof (exchange_clock _ _ _ _ Hex) as H2.
    destruct (Z.eqb_spec (error_clock st) 10); lia.
Qed.

End Session.

(** ** What the session leaves alone *)

Lemma keeps_refl (n : nat) (w : World) : keeps n w w.
Proof.
  repeat split; [lia |]. exists []. split; [rewrite app_nil_r; reflexivity | constructor].
Qed.

Lemma keeps_trans (n : nat) (w1 w2 w3 : World) :
  keeps n w1 w2 -> keeps n w2 w3 -> keeps n w1 w3.
Proof.
  intros (Hf1 & Hl1 & log1 & Hs1 & Hq1) (Hf2 & Hl2 & log2 & Hs2 & Hq2).
  repeat split; [congruence | lia |].
  exists (log1 ++ log2)%list. split.
  - rewrite Hs2, Hs1, app_assoc. reflexivity.
  - apply Forall_app. split; assumption.
Qed.

Lemma keeps_inbox (n : nat) (w : World) (l : list Event) : keeps n w (set_inbox l w).
Proof. exact (keeps_refl n w). Qed.

Lemma M_keeps_ret {A : Type} (n : nat) (a : A) : M_keeps n (ret a).
Proof. intros w _. apply keeps_refl. Qed.

Lemma M_keeps_raise {A : Type} (n : nat) (e : exn) : M_keeps n (@raise A e).
Proof. intros w _. apply keeps_refl. Qed.

Lemma M_keeps_lift {A : Type} (n : nat) (r : result A) : M_keeps n (lift r).
Proof. destruct r; [apply M_keeps_ret | apply M_keeps_raise]. Qed.

Lemma M_keeps_bind {A B : Type} (n : nat) (m : M A) (k : A -> M B) :
  M_keeps n m -> (forall a, M_keeps n (k a)) -> M_keeps n (bind m k).
Proof.
  intros Hm Hk w Hn. specialize (Hm w Hn). unfold bind.
  destruct (m w) as [[a | e |] w1]; simpl in *; try exact Hm.
  apply keeps_trans with w1; [exact Hm |].
  apply Hk. destruct Hm as (_ & Hlen & _). lia.
Qed.

Lemma M_keeps_iterate {S A : Type} (n : nat) (body : S -> M (S + A)) :
  (forall st, M_keeps n (body st)) ->
  forall fuel st, M_keeps n (iterate fuel body st).
Proof.
  intros Hbody. induction fuel as [| f IH]; intros st.
  - intros w _. apply keeps_refl.
  - simpl. apply M_keeps_bind; [apply Hbody |].
    intros [st' | a]; [apply IH | apply M_keeps_ret].
Qed.

Lemma M_keeps_for_each {S : Type} (n : nat) (body : nat -> S -> M S) :
  (forall i st, M_keeps n (body i st)) ->
  forall l st, M_keeps n (for_each l body st).
Proof.
  intros Hbody. induction l as [| i l IH]; intros st.
  - apply M_keeps_ret.
  - simpl. apply M_keeps_bind; [apply Hbody | exact IH].
Qed.

Lemma M_keeps_try_except {A : Type} (n : nat) (m : M A) (h : exn -> option (M A)) :
  M_keeps n m -> (forall e handler, h e = Some handler -> M_keeps n handler) ->
  M_keeps n (try_except m h).
Proof.
  intros Hm Hh w Hn. specialize (Hm w Hn). unfold try_except.
  destruct (m w) as [[a | e |] w1]; simpl in *; try exact Hm.
  destruct (h e) as [handler |] eqn:He; [| exact Hm].
  apply keeps_trans with w1; [exact Hm |].
  apply (Hh e handler He). destruct Hm as (_ & Hlen & _). lia.
Qed.

Lemma M_keeps_sendto (n : nat) (s : socket) (data : bytes) (to : Addr) :
  is_exit (mkPacket s data to) = false -> M_keeps n (sendto s data to).
Proof.
  intros Hq w _. unfold sendto, keeps. simpl. repeat split; [lia |].
  exists [mkPacket s data to]. split; [reflexivity |]. constructor; [exact Hq | constructor].
Qed.

Lemma M_keeps_select (n : nat) (s : socket) (t : Z) : M_keeps n (select s t).
Proof.
  intros w _. unfold select.
  destruct (inbox w) as [| [| msg a | e] rest]; simpl;
    solve [apply keeps_refl | apply keeps_inbox].
Qed.

Lemma M_keeps_recvfrom (n : nat) (s : socket) (k : nat) : M_keeps n (recvfrom s k).
Proof.
  intros w _. unfold recvfrom.
  destruct (inbox w) as [| [| msg a | e] rest]; simpl;
    solve [apply keeps_refl | apply keeps_inbox].
Qed.

Lemma M_keeps_getsockname (n : nat) (s : socket) : M_keeps n (getsockname s).
Proof.
  intros w _. unfold getsockname. destruct (port_of w s); apply keeps_refl.
Qed.

Lemma firstn_set_nth {A : Type} (n s : nat) (x : A) (l : list A) :
  (n <= s)%nat -> firstn n (set_nth s x l) = firstn n l.
Proof.
  revert n s. induction l as [| y l IH]; intros n s Hn; [destruct s; reflexivity |].
  destruct s as [| s'].
  - assert (n = 0%nat) as -> by lia. reflexivity.
  - destruct n as [| n']; [reflexivity |]. simpl. rewrite IH by lia. reflexivity.
Qed.

Lemma length_set_nth {A : Type} (s : nat) (x : A) (l : list A) :
  List.length (set_nth s x l) = List.length l.
Proof.
  revert s. induction l as [| y l IH]; intros s; [destruct s; reflexivity |].
  destruct s; simpl; [reflexivity | rewrite IH; reflexivity].
Qed.

Lemma M_keeps_sock_bind (n : nat) (s : socket) (port : Z) :
  (n <= s)%nat -> M_keeps n (sock_bind s port).
Proof.
  intros Hs w _. unfold sock_bind.
  destruct (binds w) as [| [a | e] bs]; simpl; try exact (keeps_refl n w).
  repeat split; simpl.
  - apply firstn_set_nth. exact Hs.
  - rewrite length_set_nth. lia.
  - exists []. split; [rewrite app_nil_r; reflexivity | constructor].
Qed.

Lemma M_keeps_prepare_socket (n : nat) (port : option Z) : M_keeps n (prepare_socket port).
Proof.
  intros w Hn. unfold prepare_socket.
  set (w1 := set_sockets (sockets w ++ [None])%list w).
  assert (H1 : keeps n w w1).
  { repeat split; simpl.
    - rewrite firstn_app. replace (n - List.length (sockets w))%nat with 0%nat by lia.
      simpl. rewrite app_nil_r. reflexivity.
    - rewrite length_app. simpl. lia.
    - exists []. split; [rewrite app_nil_r; reflexivity | constructor]. }
  assert (Hloop : forall p, keeps n w
            (snd (iterate (S (List.length (binds w1)))
                    (prepare_socket_body (List.length (sockets w))) p w1))).
  { intros p. apply keeps_trans with w1; [exact H1 |].
    apply M_keeps_iterate.
    - intros st. unfold prepare_socket_body. apply M_keeps_try_except.
      + apply M_keeps_bind; [apply M_keeps_sock_bind; exact Hn | intros; apply M_keeps_ret].
      + intros e handler He. destruct e as [| | errno | msg | name]; try discriminate.
        injection He as <-. destruct (errno =? 48); [apply M_keeps_ret | apply M_keeps_raise].
    - destruct H1 as (_ & Hlen & _). lia. }
  destruct port as [p |]; unfold bind, ret, socket_new; simpl; apply Hloop.
Qed.

Lemma join_is_no_exit (s : socket) (our_id peer_id : str) (remote : Addr) :
  is_exit (mkPacket s ("JOIN#" ++ our_id ++ "@" ++ peer_id) remote) = false.
Proof. reflexivity. Qed.

Lemma M_keeps_first_peer_fetch (n : nat) (s : socket) (our_id peer_id : str) (remote : Addr) :
  M_keeps n (first_peer_fetch s our_id peer_id remote).
Proof.
  unfold first_peer_fetch. apply M_keeps_bind.
  - intros w Hn. apply M_keeps_iterate; [| exact Hn].
    intros [s0 i]. unfold first_peer_fetch_body, make_peer_req.
    apply M_keeps_bind; [apply M_keeps_sendto, join_is_no_exit |].
    intros _. apply M_keeps_bind; [apply M_keeps_select |].
    intros [| s' l]; [apply M_keeps_ret |].
    apply M_keeps_bind; [apply M_keeps_recvfrom |].
    intros [msg sender]. destruct (addr_eqb sender remote); apply M_keeps_ret.
  - intros [msg |]; [| apply M_keeps_raise].
    apply M_keeps_bind; [apply M_keeps_lift |].
    intros [our peer]. apply M_keeps_ret.
Qed.

Lemma M_keeps_loop_body (n : nat) (our_id peer_id : str) (remote : Addr) (i : nat) (st : Locals) :
  M_keeps n (loop_body our_id peer_id remote i st).
Proof.
  unfold loop_body. apply M_keeps_bind.
  - unfold recovery. destruct (error_clock st =? 10); [| apply M_keeps_ret].
    apply M_keeps_bind; [apply M_keeps_getsockname |].
    intros [host port]. apply M_keeps_bind; [apply M_keeps_prepare_socket |].
    intros s. apply M_keeps_bind; [apply M_keeps_first_peer_fetch |].
    intros peer. apply M_keeps_ret.
  - intros st1. unfold exchange.
    apply M_keeps_bind; [apply M_keeps_sendto; reflexivity |].
    intros _. apply M_keeps_bind; [apply M_keeps_select |].
    intros [| s l]; [apply M_keeps_ret |].
    apply M_keeps_bind; [apply M_keeps_recvfrom |].
    intros [msg addr]. destruct (addr_eqb addr (cur_peer st1)); [apply M_keeps_ret |].
    destruct (addr_eqb addr remote); [| apply M_keeps_ret].
    apply M_keeps_bind; [apply M_keeps_lift |].
    intros [our peer]. apply M_keeps_ret.
Qed.

Lemma M_keeps_main_loop (n : nat) (s : socket) (our_id peer_id : str) (remote : Addr) :
  M_keeps n (main_loop s our_id peer_id remote).
Proof.
  unfold main_loop, main_loop_locals.
  apply M_keeps_bind; [| intros; apply M_keeps_ret].
  apply M_keeps_bind; [apply M_keeps_first_peer_fetch |].
  intros peer. apply M_keeps_for_each. intros i st. apply M_keeps_loop_body.
Qed.

(** ** Teardown *)

Lemma exits_app (l l' : list Packet) : exits (l ++ l') = (exits l + exits l')%nat.
Proof. unfold exits. rewrite filter_app, length_app. reflexivity. Qed.

Lemma exits_quiet (l : list Packet) :
  Forall (fun p => is_exit p = false) l -> exits l = 0%nat.
Proof.
  induction 1 as [| p l Hp Hl IH]; [reflexivity |].
  unfold exits in *. simpl. rewrite Hp. exact IH.
Qed.

Lemma exit_is_exit (s : socket) (our_id peer_id : str) (remote : Addr) :
  is_exit (exit_packet s our_id peer_id remote) = true.
Proof. reflexivity. Qed.



Lemma main_unfold (remote_host : str) (remote_port : Z) (our_id peer_id : str)
    (w w0 w1 : World) (s : socket) (o : Outcome unit) :
  prepare_socket None w = (Ret s, w0) ->
  main_loop s our_id peer_id (remote_host, remote_port) w0 = (o, w1) ->
  o <> Pending ->
  main remote_host remote_port our_id peer_id w
  = (o, with_sent [exit_packet s our_id peer_id (remote_host, remote_port)] w1).
Proof.
  intros Hs Hloop Ho. unfold main, bind. rewrite Hs.
  unfold try_finally. rewrite Hloop.
  destruct o as [[] | e |]; [reflexivity | reflexivity | contradiction].
Qed.



(** * The properties on sample runs *)

Example parse_addr_samples :
  parse_addr "1.2.3.4:9990" = Ok ("1.2.3.4", 9990)
  /\ parse_addr "bad" = Err ValueError
  /\ parse_addr "h:- 5" = Err ValueError
  /\ parse_addr "h: +5_0 " = Ok ("h", 50)
  /\ parse_addr "h:5__0" = Err ValueError
  /\ parse_addr "h:" = Err ValueError.
Proof. repeat split; reflexivity. Qed.

Example parse_server_msg_samples :
  parse_server_msg "1.2.3.4:9990;5.6.7.8:1234" = Ok (("1.2.3.4", 9990), ("5.6.7.8", 1234))
  /\ parse_server_msg "1.2.3.4:9990" = Err ValueError
  /\ parse_server_msg "a:1;b:2;c:3" = Err ValueError.
Proof. repeat split; reflexivity. Qed.

Example str_of_Z_samples :
  str_of_Z 9990 = "9990" /\ str_of_Z 0 = "0" /\ str_of_Z (-120) = "-120".
Proof. repeat split; reflexivity. Qed.







(** The eleventh round of that run: a second socket bound to 9991, one
    [JOIN] on it, the peer of the new answer, and a miss streak of 0. *)
Example recovery_sample :
  for_each (seq 0 11) (loop_body "a" "b" ex_remote) (Locals_init ex_s ex_peer) world_silence
  = (Ret (mkLocals 1%nat ex_peer2 0 1 (mkStats 10 1 0)),
     mkWorld [Some 9990; Some 9991]
       (repeat (ping_packet ex_s ex_peer) 10
        ++ [join_packet 1%nat "a" "b" ex_remote; ping_packet 1%nat ex_peer2])
       [] [] ex_argv).
Proof. vm_compute. reflexivity. Qed.

Lemma ok_clock_counts_hits_witness :
  ok_clock (mkLocals ex_s ex_peer 0 6 (Stats_got Stats_init)) = 5 + 1
  /\ (7 - 5 = got_counter (mkStats 1 2 0) - got_counter Stats_init /\ 5 <= 7).
Proof.
  split.
  - exact (proj1 (ok_clock_counts_hits "a" "b" ex_remote)
             (mkLocals ex_s ex_peer 3 5 Stats_init)
             (mkLocals ex_s ex_peer 0 6 (Stats_got Stats_init))
             (world_one ex_pong)
             (mkWorld [Some 9990] [ping_packet ex_s ex_peer] [] [] ex_argv)
             ex_pong [] eq_refl eq_refl).
  - exact (proj2 (ok_clock_counts_hits "a" "b" ex_remote)
             [0%nat; 1%nat; 2%nat]
             (mkLocals ex_s ex_peer 0 5 Stats_init)
             (mkLocals ex_s ex_peer 0 7 (mkStats 1 2 0))
             world_hit_miss_hit
             (mkWorld [Some 9990] (repeat (ping_packet ex_s ex_peer) 3) [] [] ex_argv)
             eq_refl).
Defined.

(** C6, as the specification words it, fails: a miss does not reset
    [ok_clock], which is 1 after a hit and a miss where the streak is 0,
    and 2 after a further hit where the streak is 1. *)
Lemma ok_clock_is_not_a_streak :
  (exists st' w',
      for_each [0%nat; 1%nat] (loop_body "a" "b" ex_remote)
        (Locals_init ex_s ex_peer) world_hit_miss_hit = (Ret st', w')
      /\ ok_clock st' = 1
      /\ spec_okStreak ex_peer [ex_pong; Timeout] = 0)
  /\ (exists st' w',
         for_each [0%nat; 1%nat; 2%nat] (loop_body "a" "b" ex_remote)
           (Locals_init ex_s ex_peer) world_hit_miss_hit = (Ret st', w')
         /\ ok_clock st' = 2
         /\ spec_okStreak ex_peer [ex_pong; Timeout; ex_pong] = 1).
Proof.
  split; eexists; eexists; (split; [reflexivity |]); split; reflexivity.
Qed.

(** A session in which the peer answers every ping: no miss, a hundred
    hits. *)
Example all_hits_sample :
  main_loop_locals ex_s "a" "b" ex_remote
    (mkWorld [Some 9990] [] (inbox world_all_hits) [] ex_argv)
  = (Ret (mkLocals ex_s ex_peer 0 100 (mkStats 0 100 0)),
     mkWorld [Some 9990]
       (join_packet ex_s "a" "b" ex_remote :: repeat (ping_packet ex_s ex_peer) 100)
       [] [] ex_argv).
Proof. vm_compute. reflexivity. Qed.



(** * Further properties *)

(** ** The server message *)

Lemma parse_server_msg_Ok_iff (msg : bytes) (our peer : Addr) :
  parse_server_msg msg = Ok (our, peer) <->
  utf8_ok msg = true
  /\ exists a b,
       msg = a ++ ";" ++ b
       /\ contains ";" a = false
       /\ contains ";" b = false
       /\ parse_addr a = Ok our
       /\ parse_addr b = Ok peer.
Proof.
  unfold parse_server_msg, decode_utf8. split.
  - destruct (utf8_ok msg); simpl; [| discriminate].
    destruct (unpack2 (split ";" msg)) as [[a b] |] eqn:Hu; simpl; [| discriminate].
    destruct (parse_addr a) as [o |] eqn:Ha; simpl; [| discriminate].
    destruct (parse_addr b) as [p |] eqn:Hb; simpl; [| discriminate].
    intros H. injection H as -> ->. split; [reflexivity |].
    apply unpack2_Ok, split_two in Hu. destruct Hu as (-> & Hfa & Hfb).
    exists a, b. repeat split; assumption.
  - intros (Hutf & a & b & -> & Hfa & Hfb & Ha & Hb).
    rewrite Hutf. simpl.
    change (a ++ ";" ++ b) with (a ++ String ";" b).
    rewrite (split_app ";" a b Hfa), (split_free ";" b Hfb).
    simpl. rewrite Ha. simpl. rewrite Hb. reflexivity.
Qed.

(** X1: [parse_server_msg] returns a pair of addresses exactly when the
    message is well-formed UTF-8 with exactly one semicolon and each side of
    it is read by [parse_addr]; the pair is what [parse_addr] makes of the
    two sides, in order. *)
Theorem parse_server_msg_two_addresses (msg : bytes) (our peer : Addr) :
  parse_server_msg msg = Ok (our, peer) <->
  utf8_ok msg = true
  /\ exists a b,
       msg = a ++ ";" ++ b
       /\ contains ";" a = false
       /\ contains ";" b = false
       /\ parse_addr a = Ok our
       /\ parse_addr b = Ok peer.
Proof. apply parse_server_msg_Ok_iff. Qed.

Lemma parse_server_msg_Err (msg : bytes) (e : exn) :
  parse_server_msg msg = Err e ->
  (e = UnicodeDecodeError /\ utf8_ok msg = false)
  \/ (e = ValueError /\ utf8_ok msg = true).
Proof.
  unfold parse_server_msg, decode_utf8.
  destruct (utf8_ok msg); simpl.
  - intros H. right. split; [| reflexivity].
    destruct (unpack2 (split ";" msg)) as [[a b] |] eqn:Hu; simpl in H.
    + destruct (parse_addr a) as [o |] eqn:Ha; simpl in H.
      * destruct (parse_addr b) as [p |] eqn:Hb; simpl in H; [discriminate |].
        injection H as <-. exact (parse_addr_Err _ _ Hb).
      * injection H as <-. exact (parse_addr_Err _ _ Ha).
    + injection H as <-. exact (unpack2_Err _ _ Hu).
  - intros H. injection H as <-. left. split; reflexivity.
Qed.

(** X2: a message that [parse_server_msg] refuses raises
    [UnicodeDecodeError] when it is not well-formed UTF-8 and [ValueError]
    in every other case (the number of semicolons, a side that is no
    address); nothing else is ever raised. *)
Theorem parse_server_msg_failures (msg : bytes) (e : exn) :
  parse_server_msg msg = Err e ->
  (e = UnicodeDecodeError /\ utf8_ok msg = false)
  \/ (e = ValueError /\ utf8_ok msg = true).
Proof. apply parse_server_msg_Err. Qed.

Lemma parse_server_msg_failures_witness :
  parse_server_msg "1.2.3.4:9990" = Err ValueError
  /\ ((ValueError = UnicodeDecodeError /\ utf8_ok "1.2.3.4:9990" = false)
      \/ (ValueError = ValueError /\ utf8_ok "1.2.3.4:9990" = true)).
Proof.
  split; [reflexivity |].
  exact (parse_server_msg_failures "1.2.3.4:9990" ValueError eq_refl).
Defined.

(** Well-formed UTF-8 in front of a text does not change whether the text
    is well formed. *)
Lemma utf8_ok_app (a b : bytes) :
  utf8_ok a = true -> utf8_ok (a ++ b) = utf8_ok b.
Proof.
  remember (String.length a) as n eqn:Hn. revert a Hn.
  induction n as [n IH] using lt_wf_ind. intros a Hn Ha.
  destruct a as [| b0 a1]; [reflexivity |].
  simpl in Hn.
  change (utf8_ok (String b0 a1 ++ b)) with (utf8_ok (String b0 (a1 ++ b))).
  cbn [utf8_ok] in Ha |- *.
  destruct (code b0 <? 128).
  { apply (IH (String.length a1)); [lia | reflexivity | exact Ha]. }
  destruct a1 as [| b1 a2]; [discriminate |].
  simpl in Hn. cbn [append].
  destruct ((194 <=? code b0) && (code b0 <=? 223)).
  { apply andb_true_iff in Ha. destruct Ha as [-> Ha]. simpl.
    apply (IH (String.length a2)); [lia | reflexivity | exact Ha]. }
  destruct a2 as [| b2 a3]; [discriminate |].
  simpl in Hn. cbn [append].
  destruct ((224 <=? code b0) && (code b0 <=? 239)).
  { apply andb_true_iff in Ha. destruct Ha as [-> Ha]. simpl.
    apply (IH (String.length a3)); [lia | reflexivity | exact Ha]. }
  destruct a3 as [| b3 a4]; [discriminate |].
  simpl in Hn. cbn [append].
  apply andb_true_iff in Ha. destruct Ha as [-> Ha]. simpl.
  apply (IH (String.length a4)); [lia | reflexivity | exact Ha].
Qed.

Lemma utf8_ok_ascii (s : bytes) : ascii_only s = true -> utf8_ok s = true.
Proof.
  induction s as [| c s IH]; [reflexivity |].
  simpl ascii_only. intros H. apply andb_true_iff in H. destruct H as [Hc Hs].
  cbn [utf8_ok]. rewrite Hc. exact (IH Hs).
Qed.

Lemma digit_char_plain (d : Z) :
  0 <= d < 10 ->
  (code (digit_char d) <? 128) = true /\ Ascii.eqb (digit_char d) ";" = false.
Proof.
  intros Hd.
  assert (Hcases : d = 0 \/ d = 1 \/ d = 2 \/ d = 3 \/ d = 4 \/ d = 5
                   \/ d = 6 \/ d = 7 \/ d = 8 \/ d = 9) by lia.
  repeat (destruct Hcases as [-> | Hcases]; [split; reflexivity |]).
  subst d. split; reflexivity.
Qed.

Lemma digits_of_plain (fuel : nat) (n : Z) (tl : str) :
  ascii_only tl = true /\ contains ";" tl = false ->
  ascii_only (digits_of fuel n tl) = true /\ contains ";" (digits_of fuel n tl) = false.
Proof.
  revert n tl. induction fuel as [| f IH]; intros n tl Htl; [exact Htl |].
  assert (Hacc : ascii_only (String (digit_char (n mod 10)) tl) = true
                 /\ contains ";" (String (digit_char (n mod 10)) tl) = false).
  { destruct (digit_char_plain (n mod 10) (mod10_digit n)) as [Hc Hs].
    simpl. rewrite Hc, Hs. exact Htl. }
  simpl. destruct (n <? 10); [exact Hacc | apply IH; exact Hacc].
Qed.

Lemma str_of_Z_plain (z : Z) :
  ascii_only (str_of_Z z) = true /\ contains ";" (str_of_Z z) = false.
Proof.
  unfold str_of_Z. destruct (z <? 0).
  - change (ascii_only (String "-" ?s)) with (ascii_only s).
    change (contains ";" (String "-" ?s)) with (contains ";" s).
    apply digits_of_plain. split; reflexivity.
  - apply digits_of_plain. split; reflexivity.
Qed.

Lemma str_app_assoc (a b c : str) : (a ++ b) ++ c = a ++ (b ++ c).
Proof. induction a as [| x a IH]; simpl; [reflexivity | rewrite IH; reflexivity]. Qed.

Lemma str_app_nil_r (a : str) : a ++ EmptyString = a.
Proof. induction a as [| x a IH]; simpl; [reflexivity | rewrite IH; reflexivity]. Qed.

Lemma contains_app (c : ascii) (a b : str) :
  contains c (a ++ b) = contains c a || contains c b.
Proof.
  induction a as [| x a IH]; simpl; [reflexivity |].
  rewrite IH, orb_assoc. reflexivity.
Qed.

(** The text form of a valid address is read back. *)
Lemma format_addr_parses (e : Addr) :
  valid_Endpoint e -> parse_addr (format_addr e) = Ok e.
Proof.
  destruct e as [host port]. intros [Hhost Hport]. simpl in Hhost, Hport.
  apply parse_addr_Ok_iff. exists (str_of_Z port).
  repeat split; [exact Hhost | apply str_of_Z_free |].
  apply int_of_str_of_Z.
  apply Z.le_lt_trans with (2 ^ 16); [| reflexivity].
  change (2 ^ 16) with 65536. lia.
Qed.

Lemma format_addr_plain (e : Addr) :
  utf8_ok (fst e) = true -> contains ";" (fst e) = false ->
  forall tl, utf8_ok (format_addr e ++ tl) = utf8_ok tl
  /\ contains ";" (format_addr e) = false.
Proof.
  destruct e as [host port]. simpl. intros Hu Hs tl.
  destruct (str_of_Z_plain port) as [Ha Hc].
  unfold format_addr. simpl fst. simpl snd. split.
  - rewrite str_app_assoc. rewrite (utf8_ok_app host _ Hu).
    change ((":" ++ str_of_Z port) ++ tl) with (String ":" (str_of_Z port ++ tl)).
    cbn [utf8_ok]. change (code ":" <? 128) with true. cbv iota.
    apply utf8_ok_app, utf8_ok_ascii, Ha.
  - rewrite contains_app, Hs. simpl. exact Hc.
Qed.

(** X3: the message an introducer writes for two valid addresses,
    [host:port;host:port], is decoded to those two addresses, as long as
    the hosts are well-formed UTF-8 without semicolon. *)
Theorem parse_server_msg_format (our peer : Addr) :
  valid_Endpoint our -> valid_Endpoint peer ->
  utf8_ok (fst our) = true -> utf8_ok (fst peer) = true ->
  contains ";" (fst our) = false -> contains ";" (fst peer) = false ->
  parse_server_msg (format_addr our ++ ";" ++ format_addr peer) = Ok (our, peer).
Proof.
  intros Hvo Hvp Huo Hup Hso Hsp.
  apply parse_server_msg_Ok_iff. split.
  - rewrite (proj1 (format_addr_plain our Huo Hso _)).
    change (";" ++ format_addr peer) with (String ";" (format_addr peer)).
    cbn [utf8_ok]. change (code ";" <? 128) with true. cbv iota.
    rewrite <- (str_app_nil_r (format_addr peer)).
    apply (proj1 (format_addr_plain peer Hup Hsp EmptyString)).
  - exists (format_addr our), (format_addr peer).
    repeat split.
    + exact (proj2 (format_addr_plain our Huo Hso EmptyString)).
    + exact (proj2 (format_addr_plain peer Hup Hsp EmptyString)).
    + apply format_addr_parses, Hvo.
    + apply format_addr_parses, Hvp.
Qed.

Lemma parse_server_msg_format_witness :
  valid_Endpoint ("1.2.3.4", 9990) /\ valid_Endpoint ex_peer
  /\ parse_server_msg (format_addr ("1.2.3.4", 9990) ++ ";" ++ format_addr ex_peer)
     = Ok (("1.2.3.4", 9990), ex_peer).
Proof.
  assert (Hvo : valid_Endpoint ("1.2.3.4", 9990)) by (split; [reflexivity | simpl; lia]).
  assert (Hvp : valid_Endpoint ex_peer) by (split; [reflexivity | simpl; lia]).
  split; [exact Hvo |]. split; [exact Hvp |].
  exact (parse_server_msg_format ("1.2.3.4", 9990) ex_peer Hvo Hvp
           eq_refl eq_refl eq_refl eq_refl).
Defined.

(** ** The requests *)

Lemma app_sep_inj (c : ascii) (h h' t t' : str) :
  contains c h = false -> contains c h' = false ->
  h ++ String c t = h' ++ String c t' -> h = h' /\ t = t'.
Proof.
  revert h'. induction h as [| x h IH]; intros h' Hh Hh' E.
  - destruct h' as [| x' h']; simpl in E.
    + injection E as ->. split; reflexivity.
    + injection E as <- _. simpl in Hh'. rewrite Ascii.eqb_refl in Hh'. discriminate.
  - destruct h' as [| x' h']; simpl in E.
    + injection E as -> _. simpl in Hh. rewrite Ascii.eqb_refl in Hh. discriminate.
    + injection E as <- E. simpl in Hh, Hh'.
      apply orb_false_iff in Hh, Hh'.
      destruct (IH h' (proj2 Hh) (proj2 Hh') E) as [-> ->]. split; reflexivity.
Qed.

(** X4: a [JOIN] or [EXIT] request names its two identifiers without
    ambiguity as long as the first holds no [@]: two requests of one kind
    with the same bytes carry the same pair of identifiers. *)
Theorem request_determines_ids (s s' : socket) (our_id peer_id our_id' peer_id' : str)
    (remote remote' : Addr) :
  contains "@" our_id = false -> contains "@" our_id' = false ->
  (payload (join_packet s our_id peer_id remote)
   = payload (join_packet s' our_id' peer_id' remote')
   -> our_id = our_id' /\ peer_id = peer_id')
  /\ (payload (exit_packet s our_id peer_id remote)
      = payload (exit_packet s' our_id' peer_id' remote')
      -> our_id = our_id' /\ peer_id = peer_id').
Proof.
  intros H H'. split; simpl; intros E; injection E as E;
    exact (app_sep_inj "@" _ _ _ _ H H' E).
Qed.

Lemma request_determines_ids_witness :
  contains "@" "alice" = false
  /\ (payload (join_packet ex_s "alice" "bob" ex_remote)
      = payload (join_packet 1%nat "alice" "bob" ex_peer)
      -> "alice" = "alice" /\ "bob" = "bob").
Proof.
  split; [reflexivity |].
  exact (proj1 (request_determines_ids ex_s 1%nat "alice" "bob" "alice" "bob"
                  ex_remote ex_peer eq_refl eq_refl)).
Defined.

(** With an [@] in the first identifier two different pairs are written
    with the same bytes. *)
Example request_ambiguous :
  payload (join_packet ex_s "a@b" "c" ex_remote)
  = payload (join_packet ex_s "a" "b@c" ex_remote).
Proof. reflexivity. Qed.

(** ** The socket manager, whatever the answers *)

(** Every script of [bind] answers is a run of "in use" that ends with the
    script, with a success, or with another exception. *)
Lemma binds_shape (l : list BindAnswer) :
  exists k,
    l = repeat in_use k
    \/ (exists a bs, l = (repeat in_use k ++ Bound a :: bs)%list)
    \/ (exists e bs, l = (repeat in_use k ++ BindRaises e :: bs)%list /\ e <> OSError 48).
Proof.
  induction l as [| x l (k & IH)].
  - exists 0%nat. left. reflexivity.
  - destruct x as [a | e].
    + exists 0%nat. right. left. exists a, l. reflexivity.
    + destruct (exn_is_in_use e) eqn:E.
      * assert (e = OSError 48) as ->.
        { destruct e as [| | errno | |]; try discriminate.
          simpl in E. apply Z.eqb_eq in E. subst. reflexivity. }
        exists (S k). destruct IH as [-> | [(a & bs & ->) | (e & bs & -> & He)]].
        -- left. reflexivity.
        -- right. left. exists a, bs. reflexivity.
        -- right. right. exists e, bs. split; [reflexivity | exact He].
      * exists 0%nat. right. right. exists e, l. split; [reflexivity |].
        intros ->. simpl in E. discriminate.
Qed.

(** What the call does, for each of the three shapes of the script. *)
Lemma prepare_socket_cases (port : Z) (w : World) :
  exists k,
    (binds w = repeat in_use k
     /\ prepare_socket (Some port) w
        = (Pending, set_binds [] (set_sockets (sockets w ++ [None])%list w)))
    \/ (exists a bs,
           binds w = (repeat in_use k ++ Bound a :: bs)%list
           /\ prepare_socket (Some port) w
              = (Ret (List.length (sockets w)),
                 set_binds bs
                   (set_sockets
                      (sockets w
                       ++ [Some (if port + Z.of_nat k =? 0 then a else port + Z.of_nat k)])%list
                      w)))
    \/ (exists e bs,
           binds w = (repeat in_use k ++ BindRaises e :: bs)%list
           /\ e <> OSError 48
           /\ prepare_socket (Some port) w
              = (Raise e, set_binds bs (set_sockets (sockets w ++ [None])%list w))).
Proof.
  destruct (binds_shape (binds w)) as (k & [H | [(a & bs & H) | (e & bs & H & He)]]);
    exists k.
  - left. split; [exact H |].
    rewrite (prepare_socket_after_in_use k port w [])
      by (rewrite app_nil_r; exact H).
    rewrite iterate_S. unfold bind.
    rewrite prepare_socket_body_pending by reflexivity. reflexivity.
  - right. left. exists a, bs. split; [exact H |].
    rewrite (prepare_socket_after_in_use k port w _ H).
    rewrite iterate_S. unfold bind.
    rewrite (prepare_socket_body_bound _ _ a _ bs) by reflexivity.
    unfold ret. simpl. rewrite set_nth_last. reflexivity.
  - right. right. exists e, bs. split; [exact H |]. split; [exact He |].
    rewrite (prepare_socket_after_in_use k port w _ H).
    rewrite iterate_S. unfold bind.
    rewrite (prepare_socket_body_fatal _ _ _ e bs) by (reflexivity || exact He).
    reflexivity.
Qed.

Lemma prepare_socket_None (w : World) :
  prepare_socket None w = prepare_socket (Some (src_port_of_argv (argv w))) w.
Proof. reflexivity. Qed.

(** The port a call starts with. *)
Lemma prepare_socket_start (port : option Z) (w : World) :
  exists p, prepare_socket port w = prepare_socket (Some p) w.
Proof.
  destruct port as [p |]; [exists p; reflexivity |].
  exists (src_port_of_argv (argv w)). apply prepare_socket_None.
Qed.

(** X5: a call of [prepare_socket] that returns met a run of "port in use"
    answers, [k] of them, and then a successful [bind]: the socket it
    returns is the new one, bound to the port asked for plus [k] (or to the
    port the system chose, when that sum is 0), and exactly [k + 1] answers
    of the script are used. *)
Theorem prepare_socket_returns_bound (port : Z) (w w' : World) (s : socket) :
  prepare_socket (Some port) w = (Ret s, w') ->
  exists k a,
    binds w = (repeat in_use k ++ Bound a :: binds w')%list
    /\ s = List.length (sockets w)
    /\ port_of w' s = Some (if port + Z.of_nat k =? 0 then a else port + Z.of_nat k).
Proof.
  intros H.
  destruct (prepare_socket_cases port w)
    as (k & [[_ E] | [(a & bs & Hb & E) | (e & bs & _ & _ & E)]]);
    rewrite E in H; try discriminate.
  injection H as <- <-. exists k, a. split; [exact Hb |]. split; [reflexivity |].
  unfold port_of. simpl. rewrite nth_error_app2 by lia.
  rewrite Nat.sub_diag. reflexivity.
Qed.

Lemma prepare_socket_returns_bound_witness :
  prepare_socket (Some 9990) world_9990_taken
  = (Ret ex_s, mkWorld [Some 9991] [] [] [] [])
  /\ exists k a,
       binds world_9990_taken = (repeat in_use k ++ Bound a :: [])%list
       /\ ex_s = 0%nat
       /\ port_of (mkWorld [Some 9991] [] [] [] []) ex_s
          = Some (if 9990 + Z.of_nat k =? 0 then a else 9990 + Z.of_nat k).
Proof.
  split; [reflexivity |].
  exact (prepare_socket_returns_bound 9990 world_9990_taken _ ex_s eq_refl).
Defined.

(** X6: [prepare_socket] never raises the "port in use" error itself: an
    exception it raises is the answer of a [bind], reached after a run of
    "in use" answers, and is not [OSError] 48. *)
Theorem prepare_socket_never_raises_in_use (port : option Z) (w w' : World) (e : exn) :
  prepare_socket port w = (Raise e, w') ->
  e <> OSError 48
  /\ exists k, binds w = (repeat in_use k ++ BindRaises e :: binds w')%list.
Proof.
  destruct (prepare_socket_start port w) as [p ->]. intros H.
  destruct (prepare_socket_cases p w)
    as (k & [[_ E] | [(a & bs & _ & E) | (e' & bs & Hb & He & E)]]);
    rewrite E in H; try discriminate.
  injection H as <- <-. split; [exact He |]. exists k. exact Hb.
Qed.

Lemma prepare_socket_never_raises_in_use_witness :
  prepare_socket (Some 9990) (mkWorld [] [] [] [in_use; BindRaises (OSError 13)] [])
  = (Raise (OSError 13), mkWorld [None] [] [] [] [])
  /\ OSError 13 <> OSError 48.
Proof.
  split; [reflexivity |].
  exact (proj1 (prepare_socket_never_raises_in_use (Some 9990)
                  (mkWorld [] [] [] [in_use; BindRaises (OSError 13)] []) _ _ eq_refl)).
Defined.

(** X7: whatever it ends with, [prepare_socket] makes exactly one socket,
    after those there were, sends no datagram, reads nothing from the
    inbox and leaves the arguments of the process alone. *)
Theorem prepare_socket_makes_one_socket (port : option Z) (w : World) :
  exists x,
    sockets (snd (prepare_socket port w)) = (sockets w ++ [x])%list
    /\ sent (snd (prepare_socket port w)) = sent w
    /\ inbox (snd (prepare_socket port w)) = inbox w
    /\ argv (snd (prepare_socket port w)) = argv w.
Proof.
  destruct (prepare_socket_start port w) as [p ->].
  destruct (prepare_socket_cases p w)
    as (k & [[_ E] | [(a & bs & _ & E) | (e' & bs & _ & _ & E)]]);
    rewrite E; simpl; eexists; repeat split.
Qed.



(** ** Discovery, whatever the inbox *)

(** What the call does, for each of the three shapes of the inbox. *)
Lemma first_peer_fetch_cases (s : socket) (our_id peer_id : str) (remote : Addr) (w : World) :
  exists pre,
    Forall (ignored remote) pre
    /\ ((inbox w = pre
         /\ first_peer_fetch s our_id peer_id remote w
            = (Pending,
               set_inbox []
                 (with_sent (repeat (join_packet s our_id peer_id remote)
                               (S (List.length pre))) w)))
        \/ (exists msg rest,
               inbox w = (pre ++ Datagram msg remote :: rest)%list
               /\ first_peer_fetch s our_id peer_id remote w
                  = (match parse_server_msg (substring 0 100 msg) with
                     | Ok (_, peer) => Ret peer
                     | Err e => Raise e
                     end,
                     set_inbox rest
                       (with_sent (repeat (join_packet s our_id peer_id remote)
                                     (S (List.length pre))) w)))
        \/ (exists e rest,
               inbox w = (pre ++ Interrupted e :: rest)%list
               /\ first_peer_fetch s our_id peer_id remote w
                  = (Raise e,
                     set_inbox rest
                       (with_sent (repeat (join_packet s our_id peer_id remote)
                                     (S (List.length pre))) w)))).
Proof.
  destruct (inbox_shape remote (inbox w))
    as (pre & Hpre & [H | [(msg & rest & H) | (e & rest & H)]]);
    exists pre; (split; [exact Hpre |]).
  - left. split; [exact H |].
    rewrite (fetch_after_ignored our_id peer_id remote s w pre [] Hpre)
      by (rewrite app_nil_r; exact H).
    unfold bind at 1. rewrite iterate_S. unfold bind at 1.
    rewrite (fetch_body_pending our_id peer_id remote s) by reflexivity.
    unfold with_sent, set_inbox, set_sent. simpl.
    rewrite <- app_assoc, repeat_snoc. reflexivity.
  - right. left. exists msg, rest. split; [exact H |].
    rewrite (fetch_after_ignored our_id peer_id remote s w pre _ Hpre H).
    unfold bind at 1. rewrite iterate_S. unfold bind at 1.
    rewrite (fetch_body_accepted our_id peer_id remote s _ _ msg rest) by reflexivity.
    unfold ret, bind, lift, with_sent, set_inbox, set_sent. simpl.
    rewrite <- app_assoc, repeat_snoc.
    destruct (parse_server_msg (substring 0 100 msg)) as [[our peer] | e];
      reflexivity.
  - right. right. exists e, rest. split; [exact H |].
    rewrite (fetch_after_ignored our_id peer_id remote s w pre _ Hpre H).
    unfold bind at 1. rewrite iterate_S. unfold bind at 1.
    rewrite (fetch_body_interrupted our_id peer_id remote s _ _ e rest) by reflexivity.
    unfold with_sent, set_inbox, set_sent. simpl.
    rewrite <- app_assoc, repeat_snoc. reflexivity.
Qed.




Lemma substring_all (s : str) (n : nat) :
  (String.length s <= n)%nat -> substring 0 n s = s.
Proof.
  revert n. induction s as [| c s IH]; intros n Hn.
  - destruct n; reflexivity.
  - destruct n as [| n]; simpl in Hn; [lia |]. simpl. rewrite IH by lia. reflexivity.
Qed.

(** X11: an answer of the introducer of at most 100 bytes is decoded
    whole: the discovery returns the peer half of the message as it was
    sent. *)
Theorem first_peer_fetch_short_answer
    (s : socket) (our_id peer_id : str) (remote : Addr) (w : World)
    (pre rest : list Event) (msg : bytes) (our peer : Addr) :
  Forall (ignored remote) pre ->
  inbox w = (pre ++ Datagram msg remote :: rest)%list ->
  (String.length msg <= 100)%nat ->
  parse_server_msg msg = Ok (our, peer) ->
  fst (first_peer_fetch s our_id peer_id remote w) = Ret peer.
Proof.
  intros Hpre H Hlen Hp.
  rewrite (fetch_after_ignored our_id peer_id remote s w pre _ Hpre H).
  unfold bind at 1. rewrite iterate_S. unfold bind at 1.
  rewrite (fetch_body_accepted our_id peer_id remote s _ _ msg rest) by reflexivity.
  rewrite (substring_all msg 100 Hlen).
  unfold ret, bind, lift. rewrite Hp. reflexivity.
Qed.

Lemma first_peer_fetch_short_answer_witness :
  Forall (ignored ex_remote) [Timeout; Datagram "hello" ex_stranger]
  /\ (String.length ex_reply <= 100)%nat
  /\ parse_server_msg ex_reply = Ok (("1.2.3.4", 9990), ex_peer)
  /\ fst (first_peer_fetch ex_s "a" "b" ex_remote world_discovery) = Ret ex_peer.
Proof.
  assert (Hpre : Forall (ignored ex_remote) [Timeout; Datagram "hello" ex_stranger]).
  { repeat constructor. }
  assert (Hlen : (String.length ex_reply <= 100)%nat) by (simpl; lia).
  split; [exact Hpre |]. split; [exact Hlen |]. split; [reflexivity |].
  exact (first_peer_fetch_short_answer ex_s "a" "b" ex_remote world_discovery
           _ [Timeout] ex_reply _ ex_peer Hpre eq_refl Hlen eq_refl).
Defined.

(** A longer answer is cut at 100 bytes before it is decoded: here the
    port of the peer, 12345, loses its last two digits. *)
Example first_peer_fetch_long_answer :
  String.length ex_long_reply = 102%nat
  /\ parse_server_msg ex_long_reply = Ok ((ex_long_host, 9990), ("5.6.7.8", 12345))
  /\ fst (first_peer_fetch ex_s "a" "b" ex_remote (world_one (Datagram ex_long_reply ex_remote)))
     = Ret ("5.6.7.8", 123).
Proof. repeat split; vm_compute; reflexivity. Qed.

(** ** The keepalive rounds, whatever the inbox *)

(** A round that returns has taken one event, and is one of the four
    classifications. *)
Lemma exchange_Ret_inv (remote : Addr) (st st' : Locals) (w w' : World) :
  exchange remote st w = (Ret st', w') ->
  exists ev,
    w' = set_inbox (inbox w') (with_sent [ping_packet (cur_s st) (cur_peer st)] w)
    /\ inbox w = ev :: inbox w'
    /\ ((ev = Timeout
         /\ st' = mkLocals (cur_s st) (cur_peer st) (error_clock st + 1) (ok_clock st)
                    (Stats_miss (stats st)))
        \/ (exists msg,
               ev = Datagram msg (cur_peer st)
               /\ st' = mkLocals (cur_s st) (cur_peer st) 0 (ok_clock st + 1)
                          (Stats_got (stats st)))
        \/ (exists msg our peer,
               ev = Datagram msg remote
               /\ remote <> cur_peer st
               /\ parse_server_msg (substring 0 100 msg) = Ok (our, peer)
               /\ st' = mkLocals (cur_s st) peer (error_clock st) (ok_clock st)
                          (Stats_other (stats st)))
        \/ (exists msg addr,
               ev = Datagram msg addr
               /\ addr <> cur_peer st /\ addr <> remote
               /\ st' = mkLocals (cur_s st) (cur_peer st) (error_clock st) (ok_clock st)
                          (Stats_other (stats st)))).
Proof.
  intros H.
  destruct (inbox w) as [| ev rest] eqn:Hin.
  { exfalso. unfold exchange, bind, sendto, select in H. simpl in H.
    rewrite Hin in H. discriminate. }
  destruct ev as [| msg addr | e].
  - rewrite (exchange_timeout remote st w rest Hin) in H. injection H as <- <-.
    exists Timeout. repeat split. left. split; reflexivity.
  - destruct (addr_eqb addr (cur_peer st)) eqn:Ep.
    + apply addr_eqb_eq in Ep. subst addr.
      rewrite (exchange_hit remote st w msg _ rest Hin eq_refl) in H.
      injection H as <- <-. eexists. repeat split.
      right. left. exists msg. split; reflexivity.
    + apply addr_eqb_neq in Ep.
      destruct (addr_eqb addr remote) eqn:Er.
      * apply addr_eqb_eq in Er. subst addr.
        rewrite (exchange_update remote st w msg rest Hin Ep) in H.
        destruct (parse_server_msg (substring 0 100 msg)) as [[our peer] | e] eqn:Hp;
          [| discriminate].
        injection H as <- <-. eexists. repeat split.
        right. right. left. exists msg, our, peer. repeat split; assumption.
      * apply addr_eqb_neq in Er.
        rewrite (exchange_other remote st w msg addr rest Hin Ep Er) in H.
        injection H as <- <-. eexists. repeat split.
        right. right. right. exists msg, addr. repeat split; assumption.
  - exfalso. unfold exchange, bind, sendto, select in H. simpl in H.
    rewrite Hin in H. discriminate.
Qed.

(** X12: a round that returns has used exactly one event of the inbox and
    kept its socket; the peer it believes in changes only when that event
    is a datagram of the introducer, and then to the peer half of the
    decoded message: no other sender can move the peer. *)
Theorem exchange_moves_peer_for_introducer_only
    (remote : Addr) (st st' : Locals) (w w' : World) :
  exchange remote st w = (Ret st', w') ->
  cur_s st' = cur_s st
  /\ (exists ev, inbox w = ev :: inbox w')
  /\ (cur_peer st' <> cur_peer st ->
      exists msg rest our,
        inbox w = Datagram msg remote :: rest
        /\ parse_server_msg (substring 0 100 msg) = Ok (our, cur_peer st')).
Proof.
  intros H. destruct (exchange_Ret_inv remote st st' w w' H) as (ev & _ & Hin & Hcase).
  destruct Hcase as [[-> ->] | [(msg & -> & ->) | [(msg & our & peer & -> & _ & Hp & ->)
                    | (msg & addr & -> & _ & _ & ->)]]]; simpl;
    (split; [reflexivity |]); (split; [eexists; exact Hin |]);
    intros Hne; try contradiction.
  exists msg, (inbox w'), our. split; assumption.
Qed.

Lemma exchange_moves_peer_for_introducer_only_witness :
  exchange ex_remote (mkLocals ex_s ex_peer 3 5 Stats_init)
    (world_one (Datagram ex_reply2 ex_remote))
  = (Ret (mkLocals ex_s ex_peer2 3 5 (Stats_other Stats_init)),
     mkWorld [Some 9990] [ping_packet ex_s ex_peer] [] [] ex_argv)
  /\ ex_peer2 <> ex_peer
  /\ exists msg rest our,
       inbox (world_one (Datagram ex_reply2 ex_remote)) = Datagram msg ex_remote :: rest
       /\ parse_server_msg (substring 0 100 msg) = Ok (our, ex_peer2).
Proof.
  assert (Hne : ex_peer2 <> ex_peer) by discriminate.
  split; [reflexivity |]. split; [exact Hne |].
  exact (proj2 (proj2 (exchange_moves_peer_for_introducer_only ex_remote
                         (mkLocals ex_s ex_peer 3 5 Stats_init) _
                         (world_one (Datagram ex_reply2 ex_remote)) _ eq_refl)) Hne).
Defined.

Lemma pings_app (l l' : list Packet) : pings (l ++ l') = (pings l + pings l')%nat.
Proof. unfold pings. rewrite filter_app, length_app. reflexivity. Qed.

Lemma pings_joins (s : socket) (our_id peer_id : str) (remote : Addr) (n : nat) :
  pings (repeat (join_packet s our_id peer_id remote) n) = 0%nat.
Proof. induction n as [| n IH]; [reflexivity | exact IH]. Qed.

Lemma pings_app_joins (l : list Packet) (s : socket) (our_id peer_id : str)
    (remote : Addr) (n : nat) :
  pings (l ++ repeat (join_packet s our_id peer_id remote) n) = pings l.
Proof. rewrite pings_app, pings_joins. lia. Qed.

(** A recovery that returns either did nothing, or made one socket and
    sent [JOIN] requests only. *)
Lemma recovery_Ret_inv (our_id peer_id : str) (remote : Addr) (st st' : Locals) (w w' : World) :
  recovery our_id peer_id remote st w = (Ret st', w') ->
  (error_clock st <> 10 /\ st' = st /\ w' = w)
  \/ (error_clock st = 10
      /\ error_clock st' = 0
      /\ ok_clock st' = ok_clock st
      /\ stats st' = stats st
      /\ List.length (sockets w') = S (List.length (sockets w))
      /\ pings (sent w') = pings (sent w)).
Proof.
  unfold recovery. destruct (Z.eqb_spec (error_clock st) 10) as [E | E].
  - intros H. right. split; [exact E |].
    unfold bind at 1 in H. unfold getsockname in H.
    assert (Hcall : exists port,
               (s <- prepare_socket (Some (port + 1)) ;;
                peer <- first_peer_fetch s our_id peer_id remote ;;
                ret (mkLocals s peer 0 (ok_clock st) (stats st))) w = (Ret st', w')).
    { destruct (port_of w (cur_s st)); eexists; exact H. }
    destruct Hcall as (port & Hcall). unfold bind in Hcall.
    destruct (prepare_socket (Some (port + 1)) w) as [[s | e |] wa] eqn:Hprep;
      [| discriminate | discriminate].
    destruct (first_peer_fetch s our_id peer_id remote wa) as [[p | e |] wb] eqn:Hfetch;
      [| discriminate | discriminate].
    unfold ret in Hcall. injection Hcall as <- <-. simpl.
    repeat split.
    + destruct (first_peer_fetch_cases s our_id peer_id remote wa)
        as (pre & _ & [[_ Ef] | [(msg & rest & _ & Ef) | (e' & rest & _ & Ef)]]);
        rewrite Ef in Hfetch; injection Hfetch as _ <-; simpl;
        (destruct (prepare_socket_cases (port + 1) w)
           as (k & [[_ Ep] | [(a & bs & _ & Ep) | (e'' & bs & _ & _ & Ep)]]);
         rewrite Ep in Hprep; injection Hprep as _ <-; simpl;
         rewrite length_app; simpl; lia).
    + destruct (first_peer_fetch_cases s our_id peer_id remote wa)
        as (pre & _ & [[_ Ef] | [(msg & rest & _ & Ef) | (e' & rest & _ & Ef)]]);
        rewrite Ef in Hfetch; injection Hfetch as _ <-;
        (etransitivity;
         [exact (pings_app_joins (sent wa) s our_id peer_id remote (S (List.length pre))) |]);
        (destruct (prepare_socket_cases (port + 1) w)
           as (k & [[_ Ep] | [(a & bs & _ & Ep) | (e'' & bs & _ & _ & Ep)]]);
         rewrite Ep in Hprep; injection Hprep as _ <-; simpl; lia).
  - unfold ret. intros H. injection H as <- <-. left. repeat split. exact E.
Qed.

(** What one round that returns adds to the counters, to the log and to
    the table of sockets. *)
Lemma round_measures (our_id peer_id : str) (remote : Addr) (i : nat)
    (st st' : Locals) (w w' : World) :
  loop_body our_id peer_id remote i st w = (Ret st', w') ->
  Stats_total (stats st') = Stats_total (stats st) + 1
  /\ pings (sent w') = S (pings (sent w))
  /\ (0 <= error_clock st <= 10 ->
      0 <= error_clock st' <= 10
      /\ 10 * Z.of_nat (List.length (sockets w')) + error_clock st'
           - miss_counter (stats st')
         <= 10 * Z.of_nat (List.length (sockets w)) + error_clock st
              - miss_counter (stats st)).
Proof.
  unfold loop_body, bind.
  destruct (recovery our_id peer_id remote st w) as [[st1 | e |] w1] eqn:Hrec;
    [| discriminate | discriminate].
  intros Hex.
  destruct (exchange_Ret_inv remote st1 st' w1 w' Hex) as (ev & Hw & _ & Hcase).
  assert (Hsent : sent w' = (sent w1 ++ [ping_packet (cur_s st1) (cur_peer st1)])%list)
    by (rewrite Hw; reflexivity).
  assert (Hsock : sockets w' = sockets w1) by (rewrite Hw; reflexivity).
  assert (Hpings : pings (sent w') = S (pings (sent w1))).
  { rewrite Hsent, pings_app. unfold pings at 2. simpl. lia. }
  assert (Hrecv :
            stats st1 = stats st
            /\ pings (sent w1) = pings (sent w)
            /\ (0 <= error_clock st <= 10 ->
                0 <= error_clock st1 < 10
                /\ 10 * Z.of_nat (List.length (sockets w1)) + error_clock st1
                   = 10 * Z.of_nat (List.length (sockets w)) + error_clock st)).
  { destruct (recovery_Ret_inv _ _ _ _ _ _ _ Hrec)
      as [(Hne & -> & ->) | (He & He1 & _ & Hst & Hlen & Hp)].
    - repeat split; lia.
    - repeat split; try assumption; rewrite ?Hlen; lia. }
  destruct Hrecv as (Hst & Hp & Hclock).
  rewrite Hpings, Hp, Hsock.
  unfold Stats_total.
  destruct Hcase as [[_ ->] | [(msg & _ & ->) | [(msg & our & peer & _ & _ & _ & ->)
                    | (msg & addr & _ & _ & _ & ->)]]];
    cbn [stats error_clock miss_counter got_counter other_counter
         Stats_miss Stats_got Stats_other];
    rewrite Hst;
    cbn [stats error_clock miss_counter got_counter other_counter
         Stats_miss Stats_got Stats_other];
    (split; [lia |]); (split; [reflexivity |]);
    intros Hb; specialize (Hclock Hb); lia.
Qed.

Lemma rounds_measures (our_id peer_id : str) (remote : Addr) (l : list nat) :
  forall (st st' : Locals) (w w' : World),
    for_each l (loop_body our_id peer_id remote) st w = (Ret st', w') ->
    Stats_total (stats st') = Stats_total (stats st) + Z.of_nat (List.length l)
    /\ pings (sent w') = (pings (sent w) + List.length l)%nat
    /\ (0 <= error_clock st <= 10 ->
        0 <= error_clock st' <= 10
        /\ 10 * Z.of_nat (List.length (sockets w')) + error_clock st'
             - miss_counter (stats st')
           <= 10 * Z.of_nat (List.length (sockets w)) + error_clock st
                - miss_counter (stats st)).
Proof.
  induction l as [| i l IH]; intros st st' w w'.
  - simpl. unfold ret. intros H. injection H as <- <-.
    repeat split; lia.
  - rewrite for_each_cons. unfold bind.
    destruct (loop_body our_id peer_id remote i st w) as [[st1 | e |] w1] eqn:Hr;
      [| discriminate | discriminate].
    intros Hl.
    destruct (round_measures _ _ _ _ _ _ _ _ Hr) as (H1 & H2 & H3).
    destruct (IH _ _ _ _ Hl) as (H4 & H5 & H6).
    simpl List.length. split; [lia |]. split; [lia |].
    intros Hb. destruct (H3 Hb) as [Hb1 Hr1]. destruct (H6 Hb1) as [Hb2 Hr2].
    split; lia.
Qed.

(** X13: every round that returns is counted once, as a miss, a hit or
    "other": over any run of rounds the three counters of the statistics
    grow together by the number of rounds. *)
Theorem stats_count_every_round (our_id peer_id : str) (remote : Addr) (l : list nat)
    (st st' : Locals) (w w' : World) :
  for_each l (loop_body our_id peer_id remote) st w = (Ret st', w') ->
  Stats_total (stats st') = Stats_total (stats st) + Z.of_nat (List.length l).
Proof. intros H. exact (proj1 (rounds_measures _ _ _ _ _ _ _ _ H)). Qed.

Lemma stats_count_every_round_witness :
  for_each [0%nat; 1%nat; 2%nat] (loop_body "a" "b" ex_remote)
    (Locals_init ex_s ex_peer) world_hit_miss_hit
  = (Ret (mkLocals ex_s ex_peer 0 2 (mkStats 1 2 0)),
     mkWorld [Some 9990] (repeat (ping_packet ex_s ex_peer) 3) [] [] ex_argv)
  /\ Stats_total (mkStats 1 2 0) = Stats_total Stats_init + 3.
Proof.
  split; [reflexivity |].
  exact (stats_count_every_round "a" "b" ex_remote [0%nat; 1%nat; 2%nat]
           (Locals_init ex_s ex_peer) (mkLocals ex_s ex_peer 0 2 (mkStats 1 2 0))
           world_hit_miss_hit _ eq_refl).
Defined.

(** X14: the miss streak stays between 0 and the threshold of 10 over any
    run of rounds, recoveries included, so the test [error_clock == 10]
    cannot be stepped over. *)
Theorem miss_streak_within_threshold (our_id peer_id : str) (remote : Addr) (l : list nat)
    (st st' : Locals) (w w' : World) :
  0 <= error_clock st <= 10 ->
  for_each l (loop_body our_id peer_id remote) st w = (Ret st', w') ->
  0 <= error_clock st' <= 10.
Proof.
  intros Hb H. exact (proj1 (proj2 (proj2 (rounds_measures _ _ _ _ _ _ _ _ H)) Hb)).
Qed.

Lemma miss_streak_within_threshold_witness :
  0 <= error_clock (Locals_init ex_s ex_peer) <= 10
  /\ 0 <= error_clock (mkLocals 1%nat ex_peer2 0 1 (mkStats 10 1 0)) <= 10.
Proof.
  assert (Hb : 0 <= error_clock (Locals_init ex_s ex_peer) <= 10) by (simpl; lia).
  split; [exact Hb |].
  exact (miss_streak_within_threshold "a" "b" ex_remote (seq 0 11)
           (Locals_init ex_s ex_peer) _ world_silence _ Hb
           ltac:(vm_compute; reflexivity)).
Defined.

(** X15: every round that returns has sent exactly one ping; what a
    recovery sends besides are [JOIN] requests. *)
Theorem one_ping_per_round (our_id peer_id : str) (remote : Addr) (l : list nat)
    (st st' : Locals) (w w' : World) :
  for_each l (loop_body our_id peer_id remote) st w = (Ret st', w') ->
  pings (sent w') = (pings (sent w) + List.length l)%nat.
Proof. intros H. exact (proj1 (proj2 (rounds_measures _ _ _ _ _ _ _ _ H))). Qed.

Lemma one_ping_per_round_witness :
  pings
    (repeat (ping_packet ex_s ex_peer) 10
     ++ [join_packet 1%nat "a" "b" ex_remote; ping_packet 1%nat ex_peer2])
  = (pings [] + 11)%nat.
Proof.
  exact (one_ping_per_round "a" "b" ex_remote (seq 0 11)
           (Locals_init ex_s ex_peer) (mkLocals 1%nat ex_peer2 0 1 (mkStats 10 1 0))
           world_silence
           (mkWorld [Some 9990; Some 9991]
              (repeat (ping_packet ex_s ex_peer) 10
               ++ [join_packet 1%nat "a" "b" ex_remote; ping_packet 1%nat ex_peer2])
              [] [] ex_argv)
           ltac:(vm_compute; reflexivity)).
Defined.

(** X16: the loop makes a socket only at the price of ten misses: over any
    run of rounds, ten times the number of sockets made, plus the miss
    streak at the end, is at most the number of misses counted plus the
    miss streak at the start. *)
Theorem rebinding_costs_ten_misses (our_id peer_id : str) (remote : Addr) (l : list nat)
    (st st' : Locals) (w w' : World) :
  0 <= error_clock st <= 10 ->
  for_each l (loop_body our_id peer_id remote) st w = (Ret st', w') ->
  10 * (Z.of_nat (List.length (sockets w')) - Z.of_nat (List.length (sockets w)))
    + error_clock st'
  <= (miss_counter (stats st') - miss_counter (stats st)) + error_clock st.
Proof.
  intros Hb H.
  pose proof (proj2 (proj2 (proj2 (rounds_measures _ _ _ _ _ _ _ _ H)) Hb)). lia.
Qed.

Lemma rebinding_costs_ten_misses_witness :
  0 <= error_clock (Locals_init ex_s ex_peer) <= 10
  /\ 10 * (Z.of_nat (List.length [Some 9990; Some 9991])
           - Z.of_nat (List.length (sockets world_silence)))
       + error_clock (mkLocals 1%nat ex_peer2 0 1 (mkStats 10 1 0))
     <= (miss_counter (mkStats 10 1 0) - miss_counter (stats (Locals_init ex_s ex_peer)))
        + error_clock (Locals_init ex_s ex_peer).
Proof.
  assert (Hb : 0 <= error_clock (Locals_init ex_s ex_peer) <= 10) by (simpl; lia).
  split; [exact Hb |].
  exact (rebinding_costs_ten_misses "a" "b" ex_remote (seq 0 11)
           (Locals_init ex_s ex_peer) (mkLocals 1%nat ex_peer2 0 1 (mkStats 10 1 0))
           world_silence
           (mkWorld [Some 9990; Some 9991]
              (repeat (ping_packet ex_s ex_peer) 10
               ++ [join_packet 1%nat "a" "b" ex_remote; ping_packet 1%nat ex_peer2])
              [] [] ex_argv)
           Hb ltac:(vm_compute; reflexivity)).
Defined.

(** ** The whole session *)

Lemma rounds_ok_clock (our_id peer_id : str) (remote : Addr) (l : list nat) :
  forall (st st' : Locals) (w w' : World),
    for_each l (loop_body our_id peer_id remote) st w = (Ret st', w') ->
    ok_clock st' - ok_clock st = got_counter (stats st') - got_counter (stats st).
Proof.
  induction l as [| i l IH]; intros st st' w w'.
  - simpl. unfold ret. intros H. injection H as <- _. lia.
  - rewrite for_each_cons. unfold bind.
    destruct (loop_body our_id peer_id remote i st w) as [[st1 | e |] w1] eqn:Hr;
      [| discriminate | discriminate].
    intros Hl.
    pose proof (proj1 (round_counts _ _ _ _ _ _ _ _ Hr)).
    pose proof (IH _ _ _ _ Hl). lia.
Qed.

(** X17: a session that runs to its end has made a hundred rounds: the
    three counters add up to 100, [ok_clock] is the number of hits, a
    hundred pings were sent, the miss streak is within the threshold, and
    ten times the number of sockets the loop has made, plus the final miss
    streak, is at most the number of misses. *)
Theorem session_of_a_hundred_rounds (s : socket) (our_id peer_id : str) (remote : Addr)
    (st : Locals) (w w' : World) :
  main_loop_locals s our_id peer_id remote w = (Ret st, w') ->
  Stats_total (stats st) = 100
  /\ ok_clock st = got_counter (stats st)
  /\ pings (sent w') = (pings (sent w) + 100)%nat
  /\ 0 <= error_clock st <= 10
  /\ 10 * (Z.of_nat (List.length (sockets w')) - Z.of_nat (List.length (sockets w)))
       + error_clock st
     <= miss_counter (stats st).
Proof.
  unfold main_loop_locals, bind.
  destruct (first_peer_fetch s our_id peer_id remote w) as [[peer | e |] w1] eqn:Hf;
    [| discriminate | discriminate].
  intros H.
  assert (Hw1 : pings (sent w1) = pings (sent w) /\ sockets w1 = sockets w).
  { destruct (first_peer_fetch_cases s our_id peer_id remote w)
      as (pre & _ & [[_ E] | [(msg & rest & _ & E) | (e' & rest & _ & E)]]);
      rewrite E in Hf; injection Hf as _ <-;
      (split; [exact (pings_app_joins (sent w) s our_id peer_id remote (S (List.length pre)))
              | reflexivity]). }
  destruct Hw1 as [Hp Hs].
  destruct (rounds_measures _ _ _ _ _ _ _ _ H) as (Ht & Hpg & Hclock).
  pose proof (rounds_ok_clock _ _ _ _ _ _ _ _ H) as Hok.
  assert (Hb : 0 <= error_clock (Locals_init s peer) <= 10) by (simpl; lia).
  destruct (Hclock Hb) as [Hb' Hrate].
  rewrite length_seq in Ht, Hpg. rewrite Hs in Hrate. rewrite Hp in Hpg.
  unfold Stats_total in *.
  cbn [Locals_init stats error_clock ok_clock miss_counter got_counter other_counter
       Stats_init] in Ht, Hok, Hrate.
  change (Z.of_nat 100) with 100 in Ht.
  repeat split; lia.
Qed.

Lemma session_of_a_hundred_rounds_witness :
  main_loop_locals ex_s "a" "b" ex_remote
    (mkWorld [Some 9990] [] (inbox world_all_hits) [] ex_argv)
  = (Ret (mkLocals ex_s ex_peer 0 100 (mkStats 0 100 0)),
     mkWorld [Some 9990]
       (join_packet ex_s "a" "b" ex_remote :: repeat (ping_packet ex_s ex_peer) 100)
       [] [] ex_argv)
  /\ Stats_total (mkStats 0 100 0) = 100.
Proof.
  assert (H : main_loop_locals ex_s "a" "b" ex_remote
                (mkWorld [Some 9990] [] (inbox world_all_hits) [] ex_argv)
              = (Ret (mkLocals ex_s ex_peer 0 100 (mkStats 0 100 0)),
                 mkWorld [Some 9990]
                   (join_packet ex_s "a" "b" ex_remote
                      :: repeat (ping_packet ex_s ex_peer) 100)
                   [] [] ex_argv))
    by (vm_compute; reflexivity).
  split; [exact H |].
  exact (proj1 (session_of_a_hundred_rounds ex_s "a" "b" ex_remote _ _ _ H)).
Defined.

(** X18: when the [bind] at startup fails for good, [main] raises that
    exception before the [try]: no datagram at all is sent, no [JOIN] and no
    [EXIT], and nothing is read. *)
Theorem main_startup_failure_sends_nothing
    (remote_host : str) (remote_port : Z) (our_id peer_id : str)
    (w w0 : World) (e : exn) :
  prepare_socket None w = (Raise e, w0) ->
  main remote_host remote_port our_id peer_id w = (Raise e, w0)
  /\ sent w0 = sent w
  /\ inbox w0 = inbox w.
Proof.
  intros H. split.
  - unfold main, bind. rewrite H. reflexivity.
  - rewrite prepare_socket_None in H.
    destruct (prepare_socket_cases (src_port_of_argv (argv w)) w)
      as (k & [[_ E] | [(a & bs & _ & E) | (e' & bs & _ & _ & E)]]);
      rewrite E in H; try discriminate.
    injection H as _ <-. split; reflexivity.
Qed.

Lemma main_startup_failure_sends_nothing_witness :
  prepare_socket None (mkWorld [] [] [ex_pong] [BindRaises (OSError 13)] ex_argv)
  = (Raise (OSError 13), mkWorld [None] [] [ex_pong] [] ex_argv)
  /\ main "9.9.9.9" 7000 "a" "b" (mkWorld [] [] [ex_pong] [BindRaises (OSError 13)] ex_argv)
     = (Raise (OSError 13), mkWorld [None] [] [ex_pong] [] ex_argv).
Proof.
  split; [reflexivity |].
  exact (proj1 (main_startup_failure_sends_nothing "9.9.9.9" 7000 "a" "b"
                  (mkWorld [] [] [ex_pong] [BindRaises (OSError 13)] ex_argv) _ _ eq_refl)).
Defined.

(** X19: an answer of the introducer that does not decode ends the run:
    when it is the first answer, [main] raises the decoding error after one
    [JOIN] and the [EXIT], both on the startup socket. *)
Theorem main_undecodable_first_answer
    (remote_host : str) (remote_port : Z) (our_id peer_id : str)
    (w w0 : World) (s : socket) (msg : bytes) (rest : list Event) (e : exn) :
  prepare_socket None w = (Ret s, w0) ->
  inbox w0 = Datagram msg (remote_host, remote_port) :: rest ->
  parse_server_msg (substring 0 100 msg) = Err e ->
  main remote_host remote_port our_id peer_id w
  = (Raise e,
     set_inbox rest
       (with_sent [join_packet s our_id peer_id (remote_host, remote_port);
                   exit_packet s our_id peer_id (remote_host, remote_port)] w0)).
Proof.
  intros Hs Hin Hp.
  assert (Hloop : main_loop s our_id peer_id (remote_host, remote_port) w0
                  = (Raise e,
                     set_inbox rest
                       (with_sent [join_packet s our_id peer_id (remote_host, remote_port)] w0))).
  { unfold main_loop, main_loop_locals. unfold bind at 1 2.
    rewrite (fetch_after_ignored our_id peer_id (remote_host, remote_port) s w0 [] _
               (Forall_nil _) Hin).
    unfold bind at 1. rewrite iterate_S. unfold bind at 1.
    rewrite (fetch_body_accepted our_id peer_id (remote_host, remote_port) s _ _ msg rest)
      by reflexivity.
    unfold ret, bind, lift. rewrite Hp.
    unfold raise, with_sent, set_inbox, set_sent. simpl. rewrite app_nil_r. reflexivity. }
  rewrite (main_unfold _ _ _ _ _ _ _ _ _ Hs Hloop ltac:(discriminate)).
  unfold with_sent, set_inbox, set_sent. simpl. rewrite <- app_assoc. reflexivity.
Qed.

Lemma main_undecodable_first_answer_witness :
  prepare_socket None (mkWorld [] [] [Datagram "bad" ex_remote; ex_pong] [Bound 0] ex_argv)
  = (Ret ex_s, mkWorld [Some 9990] [] [Datagram "bad" ex_remote; ex_pong] [] ex_argv)
  /\ parse_server_msg (substring 0 100 "bad") = Err ValueError
  /\ main "9.9.9.9" 7000 "a" "b"
       (mkWorld [] [] [Datagram "bad" ex_remote; ex_pong] [Bound 0] ex_argv)
     = (Raise ValueError,
        mkWorld [Some 9990]
          [join_packet ex_s "a" "b" ex_remote; exit_packet ex_s "a" "b" ex_remote]
          [ex_pong] [] ex_argv).
Proof.
  split; [reflexivity |]. split; [reflexivity |].
  exact (main_undecodable_first_answer "9.9.9.9" 7000 "a" "b"
           (mkWorld [] [] [Datagram "bad" ex_remote; ex_pong] [Bound 0] ex_argv)
           _ ex_s "bad" [ex_pong] ValueError eq_refl eq_refl eq_refl).
Defined.

(** X20: no [EXIT] goes out before the session is over: as long as [main]
    is still waiting, for a [bind], for the introducer or in a round, the
    log holds no more [EXIT] requests than it did at the start. *)
Theorem no_exit_before_the_end
    (remote_host : str) (remote_port : Z) (our_id peer_id : str) (w : World) :
  fst (main remote_host remote_port our_id peer_id w) = Pending ->
  exits (sent (snd (main remote_host remote_port our_id peer_id w))) = exits (sent w).
Proof.
  unfold main, bind.
  pose proof (M_keeps_prepare_socket 0 None w (Nat.le_0_l _)) as (_ & _ & log0 & Hs0 & Hq0).
  destruct (prepare_socket None w) as [[s | e |] w0]; simpl; try discriminate.
  - simpl in Hs0.
    pose proof (M_keeps_main_loop 0 s our_id peer_id (remote_host, remote_port) w0
                  (Nat.le_0_l _)) as (_ & _ & log1 & Hs1 & Hq1).
    unfold try_finally.
    destruct (main_loop s our_id peer_id (remote_host, remote_port) w0) as [[[] | e |] w1];
      simpl; try discriminate.
    intros _. simpl in Hs1.
    rewrite Hs1, Hs0, !exits_app, (exits_quiet _ Hq0), (exits_quiet _ Hq1). lia.
  - intros _. simpl in Hs0. rewrite Hs0, exits_app, (exits_quiet _ Hq0). lia.
Qed.

Lemma no_exit_before_the_end_witness :
  fst (main "9.9.9.9" 7000 "a" "b" (mkWorld [] [] [Timeout; Timeout] [Bound 0] ex_argv))
  = Pending
  /\ exits (sent (snd (main "9.9.9.9" 7000 "a" "b"
                         (mkWorld [] [] [Timeout; Timeout] [Bound 0] ex_argv))))
     = exits [].
Proof.
  split; [reflexivity |].
  exact (no_exit_before_the_end "9.9.9.9" 7000 "a" "b"
           (mkWorld [] [] [Timeout; Timeout] [Bound 0] ex_argv) eq_refl).
Defined.

(** ** The statistics *)

Lemma kind_count_cons (k k' : StatKind) (ks : list StatKind) :
  kind_count k (k' :: ks)
  = kind_count k ks
    + match k, k' with
      | KMiss, KMiss | KGot, KGot | KOther, KOther => 1
      | _, _ => 0
      end.
Proof.
  unfold kind_count. simpl filter.
  destruct k, k'; simpl List.length; lia.
Qed.

Lemma StatsObj_count_all_spec (ks : list StatKind) :
  forall o,
    so_last (StatsObj_count_all ks o) = so_last o
    /\ so_start (StatsObj_count_all ks o) = so_start o
    /\ miss_counter (so_count (StatsObj_count_all ks o))
       = miss_counter (so_count o) + kind_count KMiss ks
    /\ got_counter (so_count (StatsObj_count_all ks o))
       = got_counter (so_count o) + kind_count KGot ks
    /\ other_counter (so_count (StatsObj_count_all ks o))
       = other_counter (so_count o) + kind_count KOther ks.
Proof.
  induction ks as [| k ks IH]; intros o.
  - unfold kind_count. simpl. repeat split; lia.
  - change (StatsObj_count_all (k :: ks) o)
      with (StatsObj_count_all ks (StatsObj_count k o)).
    destruct (IH (StatsObj_count k o)) as (Hl & Hs & Hm & Hg & Ho).
    rewrite Hl, Hs, Hm, Hg, Ho, !kind_count_cons.
    destruct o as [c l s n]. destruct k; simpl; repeat split; lia.
Qed.

(** X21: [print_step] reports what was counted since the report before:
    after a [print_step], whatever events are counted, the next
    [print_step] writes the numbers of misses, hits and others among just
    those events, and the time since the snapshot of the first was stamped;
    the first [print_step] of an object writes the numbers since its
    creation. *)
Theorem print_step_reports_since_last
    (born now1 now2 now1' now2' : Z) (o : StatsObj) (ks : list StatKind) :
  fst (StatsObj_print_step now1' now2'
         (StatsObj_count_all ks (snd (StatsObj_print_step now1 now2 o))))
  = mkReport (kind_count KMiss ks) (kind_count KGot ks) (kind_count KOther ks)
      (now1' - now2)
  /\ fst (StatsObj_print_step now1 now2 (StatsObj_count_all ks (StatsObj_new born)))
     = mkReport (kind_count KMiss ks) (kind_count KGot ks) (kind_count KOther ks)
         (now1 - born).
Proof.
  split.
  - destruct (StatsObj_count_all_spec ks (snd (StatsObj_print_step now1 now2 o)))
      as (Hl & Hs & Hm & Hg & Ho).
    unfold StatsObj_print_step at 1. cbn [fst].
    rewrite Hl, Hm, Hg, Ho. destruct o as [c l s n]. cbn.
    f_equal; lia.
  - destruct (StatsObj_count_all_spec ks (StatsObj_new born)) as (Hl & Hs & Hm & Hg & Ho).
    unfold StatsObj_print_step. cbn [fst].
    rewrite Hl, Hs, Hm, Hg, Ho. cbn. f_equal; lia.
Qed.

Lemma StatsObj_do_all_spec (ops : list StatsOp) :
  forall o,
    so_start (StatsObj_do_all ops o) = so_start o
    /\ so_count (StatsObj_do_all ops o) = so_count (StatsObj_count_all (counted ops) o)
    /\ snapshots (StatsObj_do_all ops o)
       = (snapshots o + List.length (filter is_step ops))%nat.
Proof.
  induction ops as [| op ops IH]; intros o.
  - simpl. repeat split. lia.
  - change (StatsObj_do_all (op :: ops) o) with (StatsObj_do_all ops (StatsObj_do op o)).
    destruct (IH (StatsObj_do op o)) as (Hs & Hc & Hn). rewrite Hs, Hc, Hn.
    destruct op as [k | n1 n2].
    + destruct o as [c [l |] s n]; repeat split; simpl; lia.
    + destruct o as [c l s n]. simpl counted. simpl filter. simpl List.length.
      repeat split.
      * destruct (StatsObj_count_all_spec (counted ops)
                    (StatsObj_do (OpStep n1 n2) (mkStatsObj c l s n)))
          as (_ & _ & Hm & Hg & Ho).
        destruct (StatsObj_count_all_spec (counted ops) (mkStatsObj c l s n))
          as (_ & _ & Hm' & Hg' & Ho').
        destruct (so_count (StatsObj_count_all (counted ops)
                              (StatsObj_do (OpStep n1 n2) (mkStatsObj c l s n)))) as [m g o].
        destruct (so_count (StatsObj_count_all (counted ops) (mkStatsObj c l s n)))
          as [m' g' o'].
        simpl in *. f_equal; lia.
      * destruct l; simpl; lia.
Qed.

(** X22: [print_step] never disturbs the totals: whatever events and
    reports came before, [print_results] writes the numbers of all the
    misses, hits and others counted since the object was made, and the time
    since then. *)
Theorem print_results_reports_totals (now0 now : Z) (ops : list StatsOp) :
  StatsObj_print_results now (StatsObj_do_all ops (StatsObj_new now0))
  = mkReport (kind_count KMiss (counted ops)) (kind_count KGot (counted ops))
      (kind_count KOther (counted ops)) (now - now0).
Proof.
  destruct (StatsObj_do_all_spec ops (StatsObj_new now0)) as (Hs & Hc & _).
  destruct (StatsObj_count_all_spec (counted ops) (StatsObj_new now0))
    as (_ & _ & Hm & Hg & Ho).
  unfold StatsObj_print_results. rewrite Hs, Hc, Hm, Hg, Ho. simpl. f_equal; lia.
Qed.

(** X23: every [print_step] keeps a deep copy of the object as it was,
    with the copies that one already held: the snapshots held, one inside
    the other, are as many as the reports made, and none is ever dropped. *)
Theorem print_step_keeps_every_snapshot (now0 : Z) (ops : list StatsOp) :
  snapshots (StatsObj_do_all ops (StatsObj_new now0)) = List.length (filter is_step ops).
Proof.
  destruct (StatsObj_do_all_spec ops (StatsObj_new now0)) as (_ & _ & Hn).
  rewrite Hn. reflexivity.
Qed.

Example stats_sample :
  fst (StatsObj_print_step 500 510
         (StatsObj_do_all [OpCount KMiss; OpCount KGot; OpStep 100 110;
                           OpCount KGot; OpCount KOther; OpCount KGot]
            (StatsObj_new 7)))
  = mkReport 0 2 1 390.
Proof. reflexivity. Qed.

(** ** The configuration *)



(** The command line gives the identifiers, and the file lacks one: the
    process exits. *)
Example read_config_missing_id :
  read_config
    (Some [("remote_host", TStr "9.9.9.9"); ("remote_port", TInt 7000);
           ("peer_id", TStr "bob")])
    ["client.py"; "9990"; "carol"; "dave"]
  = None.
Proof. reflexivity. Qed.



(** The port of the introducer can be written as an integer, a string, a
    boolean or a float; an array is refused. *)
Example int_of_toml_samples :
  int_of_toml (TInt 7000) = Some 7000
  /\ int_of_toml (TStr " 7_000 ") = Some 7000
  /\ int_of_toml (TBool true) = Some 1
  /\ int_of_toml (TFloat (Finite 14001 (-1))) = Some 7000
  /\ int_of_toml (TFloat (Finite (-14001) (-1))) = Some (-7000)
  /\ int_of_toml (TFloat NaN) = None
  /\ int_of_toml TOther = None.
Proof. repeat split; reflexivity. Qed.
